(** * Gravity Runner: the simulation core of [ui/main_ui.py]

    A shallow embedding of the game's state and of one frame of its main
    loop, followed by the properties of the simulation engine.

    Numbers.  Python mixes [int] and [float] freely here: the score, the game
    speed, the spawn interval and an obstacle's [x] start as integers and
    become floats after the first tick.  They are modelled as exact rationals
    ([Q]); quantities that stay integers for the whole run (the player's
    coordinates, box sizes, millisecond time stamps) are [Z].  Where a result
    is compared up to the value of a rational, [==] ([Qeq]) is used.  The
    exact reading is used for the statements that the rounding of float
    operations cannot change (orders, bounds, integer facts, control flow);
    module [B64] reads the same program on binary64 floats for the statement
    that rounding decides.

    Environment.  What a tick reads from outside the program is an explicit
    input: the millisecond clock [pygame.time.get_ticks()], the two random
    draws of [generate_obstacle], the pressed state of the space bar and the
    queue of pygame events. *)

From Stdlib Require Import String ZArith QArith Qminmax Qabs Qround Floats List Bool Lia Lqa.
Import ListNotations.

Open Scope Q_scope.

(** ** Game constants *)

Definition SCREEN_WIDTH : Z := 800.
Definition SCREEN_HEIGHT : Z := 400.
Definition GROUND_HEIGHT : Z := 350.
Definition AIR_HEIGHT : Z := 150.
Definition PLAYER_WIDTH : Z := 30.
Definition PLAYER_HEIGHT : Z := 80.
Definition OBSTACLE_WIDTH : Z := 30.
Definition OBSTACLE_HEIGHT : Z := 80.
Definition GAME_SPEED_INITIAL : Z := 5.
Definition GAME_SPEED_INCREMENT : Q := 4 # 1000.   (* 0.004 *)
Definition OBSTACLE_FREQUENCY_INITIAL : Z := 1000.
Definition OBSTACLE_FREQUENCY_MIN : Z := 500.
Definition OBSTACLE_DISTANCE_MIN : Z := 300.
Definition OBSTACLE_DISTANCE_MAX : Z := 600.
Definition SCORE_INCREMENT : Q := 5 # 100.   (* 0.05 *)
Definition TRANSITION_SPEED : Z := 15.

(** ** Python and pygame primitives *)

(** [a < b] on numbers, as a boolean. *)
Definition Qltb (a b : Q) : bool := negb (Qle_bool b a).

(** [a >= b] on numbers, as a boolean. *)
Definition Qgeb (a b : Q) : bool := Qle_bool b a.

(** Conversion of a float to a C [int], as pygame does with the arguments of
    [pygame.Rect]: truncation toward zero. *)
Definition to_int (q : Q) : Z := Z.quot (Qnum q) (Zpos (Qden q)).

Module Rect.

(** [pygame.Rect]: integer left, top, width and height. *)
Record t : Type := mk { x : Z; y : Z; w : Z; h : Z }.

(** [Rect.colliderect] of pygame 2: rectangles of zero width or height
    collide with nothing; otherwise the open intervals on both axes must
    intersect (edges that only touch do not collide). *)
Definition colliderect (a b : t) : bool :=
  if ((w a =? 0) || (h a =? 0) || (w b =? 0) || (h b =? 0))%Z then false
  else
    ((Z.min (x a) (x a + w a) <? Z.max (x b) (x b + w b)) &&
     (Z.min (y a) (y a + h a) <? Z.max (y b) (y b + h b)) &&
     (Z.min (x b) (x b + w b) <? Z.max (x a) (x a + w a)) &&
     (Z.min (y b) (y b + h b) <? Z.max (y a) (y a + h a)))%Z.

End Rect.

(** ** GameState *)

Record GameState : Type := mkGameState {
  game_over : bool;
  has_started : bool;
  score : Q;
  game_speed : Q;
  obstacle_frequency : Q;
  last_obstacle_time : Z
}.

(** [GameState.reset]: every field is overwritten, whatever it held. *)
Definition GameState_reset (_ : GameState) : GameState :=
  {| game_over := false;
     has_started := false;
     score := 0;
     game_speed := inject_Z GAME_SPEED_INITIAL;
     obstacle_frequency := inject_Z OBSTACLE_FREQUENCY_INITIAL;
     last_obstacle_time := 0 |}.

Definition set_game_over (b : bool) (s : GameState) : GameState :=
  {| game_over := b;
     has_started := has_started s;
     score := score s;
     game_speed := game_speed s;
     obstacle_frequency := obstacle_frequency s;
     last_obstacle_time := last_obstacle_time s |}.

Definition set_has_started (b : bool) (s : GameState) : GameState :=
  {| game_over := game_over s;
     has_started := b;
     score := score s;
     game_speed := game_speed s;
     obstacle_frequency := obstacle_frequency s;
     last_obstacle_time := last_obstacle_time s |}.

Definition set_last_obstacle_time (t : Z) (s : GameState) : GameState :=
  {| game_over := game_over s;
     has_started := has_started s;
     score := score s;
     game_speed := game_speed s;
     obstacle_frequency := obstacle_frequency s;
     last_obstacle_time := t |}.

(** ** Background *)

Module Background.

(** [bg_width] is the width of the loaded image; it never changes. *)
Record t : Type := mk { scroll_speed : Q; min_x : Q; bg_width : Z }.

Definition init (image_width : Z) : t :=
  {| scroll_speed := inject_Z GAME_SPEED_INITIAL;
     min_x := 0;
     bg_width := image_width |}.

(** [Background.update]; the call to [draw] in the middle has no effect on
    the state. *)
Definition update (new_speed : Q) (b : t) : t :=
  let min_x' := min_x b - new_speed in
  {| scroll_speed := new_speed;
     min_x := if Qgeb (Qabs min_x') (inject_Z (bg_width b)) then 0 else min_x';
     bg_width := bg_width b |}.

End Background.

(** ** Player *)

Module Player.

Record t : Type := mk {
  width : Z;
  height : Z;
  x : Z;
  y : Z;
  in_air : bool;
  target_y : Z
}.

(** [Player.__init__] *)
Definition init : t :=
  {| width := PLAYER_WIDTH;
     height := PLAYER_HEIGHT;
     x := 100;
     y := GROUND_HEIGHT - PLAYER_HEIGHT;
     in_air := false;
     target_y := GROUND_HEIGHT - PLAYER_HEIGHT |}%Z.

(** The assignment [player.in_air = keys[K_SPACE]] of [handle_events]. *)
Definition set_in_air (b : bool) (p : t) : t :=
  {| width := width p; height := height p; x := x p; y := y p;
     in_air := b; target_y := target_y p |}.

(** [Player.update] *)
Definition update (p : t) : t :=
  let target := (if in_air p then AIR_HEIGHT else GROUND_HEIGHT - height p)%Z in
  let y' :=
    (if y p <? target then Z.min target (y p + TRANSITION_SPEED)
     else if target <? y p then Z.max target (y p - TRANSITION_SPEED)
     else y p)%Z in
  {| width := width p; height := height p; x := x p; y := y';
     in_air := in_air p; target_y := target |}.

(** [Player.get_rect] *)
Definition get_rect (p : t) : Rect.t :=
  Rect.mk (x p) (y p) (width p) (height p).

(** The player after a sequence of frames, each setting the control signal
    and then updating. *)
Definition steps (signals : list bool) (p : t) : t :=
  fold_left (fun q b => update (set_in_air b q)) signals p.

End Player.

(** ** Obstacle *)

Module Obstacle.

Record t : Type := mk {
  width : Z;
  height : Z;
  x : Q;
  is_air_obstacle : bool;
  y : Z;
  speed : Q
}.

(** [Obstacle.__init__(speed, is_air_obstacle)] *)
Definition init (speed0 : Q) (is_air : bool) : t :=
  {| width := OBSTACLE_WIDTH;
     height := OBSTACLE_HEIGHT;
     x := inject_Z SCREEN_WIDTH;
     is_air_obstacle := is_air;
     y := (if is_air then AIR_HEIGHT else GROUND_HEIGHT - OBSTACLE_HEIGHT)%Z;
     speed := speed0 |}.

Definition set_x (x' : Q) (o : t) : t :=
  {| width := width o; height := height o; x := x';
     is_air_obstacle := is_air_obstacle o; y := y o; speed := speed o |}.

(** [Obstacle.update]: the obstacle moves left by the speed it stores.  The
    difference is exact here; the program rounds it ([B64.Ob_update]). *)
Definition update (o : t) : t := set_x (x o - speed o) o.

(** [Obstacle.get_rect]: [x] is a float, truncated by [pygame.Rect]. *)
Definition get_rect (o : t) : Rect.t :=
  Rect.mk (to_int (x o)) (y o) (width o) (height o).

(** [Obstacle.is_off_screen] *)
Definition is_off_screen (o : t) : bool :=
  Qltb (x o + inject_Z (width o)) 0.

End Obstacle.

(** ** GameManager *)

(** The simulation state held by a [GameManager]; the display, the clock, the
    font and the two unused interface slots carry no simulation state. *)
Record GameManager : Type := mkGameManager {
  state : GameState;
  background : Background.t;
  player : Player.t;
  obstacles : list Obstacle.t
}.

(** [GameManager.__init__], for a background image of the given width. *)
Definition GameManager_init (image_width : Z) : GameManager :=
  {| state := GameState_reset (mkGameState false false 0 0 0 0);
     background := Background.init image_width;
     player := Player.init;
     obstacles := [] |}.

(** What one call of [GameManager.update] reads from outside the program. *)
Record Env : Type := mkEnv {
  current_time : Z;   (* pygame.time.get_ticks() *)
  rand_air : bool;    (* random.choice([True, False]) *)
  rand_dist : Z       (* random.randint(OBSTACLE_DISTANCE_MIN, OBSTACLE_DISTANCE_MAX) *)
}.

(** The loop over [self.obstacles[:]] in [GameManager.update]: every obstacle
    is moved, and removed from the list when it is then off screen. *)
Fixpoint update_obstacles (obs : list Obstacle.t) : list Obstacle.t :=
  match obs with
  | [] => []
  | obstacle :: rest =>
      let obstacle' := Obstacle.update obstacle in
      if Obstacle.is_off_screen obstacle'
      then update_obstacles rest
      else obstacle' :: update_obstacles rest
  end.

(** The loop of [GameManager.check_collisions] over the obstacles, on the
    game state: no early exit, the flag is only ever set. *)
Fixpoint collide_loop (player_rect : Rect.t) (obs : list Obstacle.t)
    (s : GameState) : GameState :=
  match obs with
  | [] => s
  | obstacle :: rest =>
      collide_loop player_rect rest
        (if Rect.colliderect player_rect (Obstacle.get_rect obstacle)
         then set_game_over true s else s)
  end.

(** [GameManager.check_collisions] *)
Definition check_collisions (g : GameManager) : GameManager :=
  {| state := collide_loop (Player.get_rect (player g)) (obstacles g) (state g);
     background := background g;
     player := player g;
     obstacles := obstacles g |}.

(** [GameManager.generate_obstacle].  The sum [last_obstacle.x + min_distance]
    is exact here; the program rounds it ([B64.generate_obstacle]). *)
Definition generate_obstacle (e : Env) (g : GameManager) : GameManager :=
  let is_air_obstacle := rand_air e in
  let new_obstacle := Obstacle.init (game_speed (state g)) is_air_obstacle in
  let new_obstacle :=
    match obstacles g with
    | [] => new_obstacle
    | _ :: _ =>
        let last_obstacle := last (obstacles g) new_obstacle in
        let min_distance := rand_dist e in
        Obstacle.set_x
          (Qmax (inject_Z SCREEN_WIDTH)
                (Obstacle.x last_obstacle + inject_Z min_distance))
          new_obstacle
    end in
  {| state := state g;
     background := background g;
     player := player g;
     obstacles := obstacles g ++ [new_obstacle] |}.

(** The spawn test of [GameManager.update] and what follows it. *)
Definition maybe_spawn (e : Env) (g : GameManager) : GameManager :=
  if Qltb (obstacle_frequency (state g))
          (inject_Z (current_time e - last_obstacle_time (state g)))
  then
    let g' := generate_obstacle e g in
    {| state := set_last_obstacle_time (current_time e) (state g');
       background := background g';
       player := player g';
       obstacles := obstacles g' |}
  else g.

(** The difficulty and score update at the end of [GameManager.update].  The
    sums and products are exact here; the program rounds each of them
    ([B64.advance_difficulty]). *)
Definition advance_difficulty (s : GameState) : GameState :=
  let speed_multiplier := 1 + score s / 500 in
  let game_speed' := game_speed s + GAME_SPEED_INCREMENT * speed_multiplier in
  let score' := score s + SCORE_INCREMENT in
  {| game_over := game_over s;
     has_started := has_started s;
     score := score';
     game_speed := game_speed';
     obstacle_frequency :=
       Qmax (inject_Z OBSTACLE_FREQUENCY_MIN)
            (inject_Z OBSTACLE_FREQUENCY_INITIAL - score' * 2);
     last_obstacle_time := last_obstacle_time s |}.

(** The first two steps of [GameManager.update]: the player is updated, then
    the obstacles are moved and pruned. *)
Definition move_entities (g : GameManager) : GameManager :=
  {| state := state g;
     background := background g;
     player := Player.update (player g);
     obstacles := update_obstacles (obstacles g) |}.

(** [GameManager.update] *)
Definition update (e : Env) (g : GameManager) : GameManager :=
  if negb (has_started (state g)) then g
  else if game_over (state g) then g
  else
    let g1 := move_entities g in
    let g2 := check_collisions g1 in
    let g3 := maybe_spawn e g2 in
    let s4 := advance_difficulty (state g3) in
    {| state := s4;
       background := Background.update (game_speed s4) (background g3);
       player := player g3;
       obstacles := obstacles g3 |}.

(** [GameManager.reset_game] *)
Definition reset_game (g : GameManager) : GameManager :=
  {| state := GameState_reset (state g);
     background := background g;
     player := Player.init;
     obstacles := [] |}.

(** The two statements that both reset branches of [handle_events] run:
    [self.reset_game()] and then [self.state.has_started = True]. *)
Definition restart (g : GameManager) : GameManager :=
  let g' := reset_game g in
  {| state := set_has_started true (state g');
     background := background g';
     player := player g';
     obstacles := obstacles g' |}.

Inductive Key : Type := K_ESCAPE | K_SPACE | K_other.

Inductive Event : Type := QUIT | KEYDOWN (key : Key) | other_event.

(** One iteration of the event loop of [handle_events]; [None] is the exit of
    the program ([pygame.quit(); sys.exit()]). *)
Definition handle_event (ev : Event) (g : GameManager) : option GameManager :=
  match ev with
  | QUIT => None
  | KEYDOWN K_ESCAPE => None
  | KEYDOWN K_SPACE =>
      if game_over (state g) then Some (restart g)
      else if negb (has_started (state g)) then Some (restart g)
      else Some g
  | KEYDOWN K_other => Some g
  | other_event => Some g
  end.

Definition set_player_in_air (b : bool) (g : GameManager) : GameManager :=
  {| state := state g;
     background := background g;
     player := Player.set_in_air b (player g);
     obstacles := obstacles g |}.

(** [GameManager.handle_events]: the queued events in order, then the sample
    of the space bar. *)
Fixpoint handle_events (evs : list Event) (space : bool) (g : GameManager)
    : option GameManager :=
  match evs with
  | [] => Some (set_player_in_air space g)
  | ev :: rest =>
      match handle_event ev g with
      | None => None
      | Some g' => handle_events rest space g'
      end
  end.

(** A frame without events: the control signal is sampled, then the
    simulation is updated.  This is the tick of the simulation. *)
Definition tick (air_requested : bool) (e : Env) (g : GameManager) : GameManager :=
  update e (set_player_in_air air_requested g).

(** A sequence of ticks. *)
Definition run (inputs : list (bool * Env)) (g : GameManager) : GameManager :=
  fold_left (fun g' i => tick (fst i) (snd i) g') inputs g.

(** One iteration of the loop of [GameManager.run] (drawing and frame pacing
    change nothing in the state). *)
Definition frame (evs : list Event) (air_requested : bool) (e : Env)
    (g : GameManager) : option GameManager :=
  match handle_events evs air_requested g with
  | None => None
  | Some g' => Some (update e g')
  end.

(** ** Phase

    The spec's three-valued phase, read off the two flags of [GameState] in
    the order in which [GameManager.update] tests them. *)

Inductive Phase : Type := NOT_STARTED | RUNNING | GAME_OVER.

Definition phase (g : GameManager) : Phase :=
  if negb (has_started (state g)) then NOT_STARTED
  else if game_over (state g) then GAME_OVER
  else RUNNING.


(** ** Invariants *)

(** The lane invariant of the player: the box height is the constant and [y]
    lies between the air altitude and the ground baseline. *)
Definition in_lanes (p : Player.t) : Prop :=
  (Player.height p = PLAYER_HEIGHT /\
   AIR_HEIGHT <= Player.y p <= GROUND_HEIGHT - PLAYER_HEIGHT)%Z.

(** A tick runs the simulation only in this condition of the two flags. *)
Definition running (g : GameManager) : Prop :=
  has_started (state g) = true /\ game_over (state g) = false.

(** The test made by [check_collisions] for one obstacle. *)
Definition collides (p : Player.t) (o : Obstacle.t) : bool :=
  Rect.colliderect (Player.get_rect p) (Obstacle.get_rect o).

(** The spawn interval is the floored linear function of the score, and the
    score is not negative. *)
Definition difficulty_inv (s : GameState) : Prop :=
  0 <= score s /\
  obstacle_frequency s ==
    Qmax (inject_Z OBSTACLE_FREQUENCY_MIN)
         (inject_Z OBSTACLE_FREQUENCY_INITIAL - score s * 2).

(** ** Sample states and inputs *)

(** A freshly started game, for a background image 1600 pixels wide. *)
Definition start : GameManager := restart (GameManager_init 1600).

(** The clock reads 1001 ms, the random draws are a ground obstacle and the
    smallest distance. *)
Definition env_1001 : Env := mkEnv 1001 false 300.

(** The clock one second later; the same random draws. *)
Definition env_2002 : Env := mkEnv 2002 false 300.

Definition env_2003 : Env := mkEnv 2003 false 300.

(** Two obstacles on the field: the first spawned on the first tick, the
    second on the second tick, the player staying on the ground. *)
Definition two_obstacles : GameManager :=
  run [(false, env_1001); (false, env_2002)] start.

(** The tick before a collision: the first tick spawns a ground obstacle at
    the right edge with speed 5, and 134 further ticks bring it to [x = 130],
    next to the player, who stays on the ground. *)
Definition before_hit : GameManager :=
  run (repeat (false, env_1001) 135) start.

(** A game-over state written out: the player on the ground, overlapped by a
    ground obstacle. *)
Definition stopped : GameManager :=
  {| state :=
       {| game_over := true;
          has_started := true;
          score := 68 # 10;
          game_speed := 5547672 # 1000000;
          obstacle_frequency := 9864 # 10;
          last_obstacle_time := 1001 |};
     background := Background.init 1600;
     player := Player.init;
     obstacles := [Obstacle.set_x 125 (Obstacle.init 5 false)] |}.

(** A single ground obstacle as the first tick of a run spawns it. *)
Definition first_obstacle : Obstacle.t := Obstacle.init 5 false.

(** ** Frames of the main loop *)

(** The inputs of one iteration of [GameManager.run]: the queued events, the
    pressed state of the space bar and what [update] reads. *)
Definition Frame : Type := (list Event * bool * Env)%type.

(** Iterations of the loop of [GameManager.run], until the program exits. *)
Fixpoint frames (fs : list Frame) (g : GameManager) : option GameManager :=
  match fs with
  | [] => Some g
  | (evs, air_requested, e) :: rest =>
      match frame evs air_requested e g with
      | None => None
      | Some g' => frames rest g'
      end
  end.

(** The events on which [handle_events] leaves the program. *)
Definition is_exit (ev : Event) : bool :=
  match ev with
  | QUIT => true
  | KEYDOWN K_ESCAPE => true
  | _ => false
  end.

Definition is_space (ev : Event) : bool :=
  match ev with
  | KEYDOWN K_SPACE => true
  | _ => false
  end.

(** The test of the two flags at the head of [GameManager.update]. *)
Definition runningb (g : GameManager) : bool :=
  has_started (state g) && negb (game_over (state g)).

(** The spawn test of [GameManager.update], read on the state before the
    tick (the steps before the test change neither field). *)
Definition spawns (e : Env) (g : GameManager) : bool :=
  Qltb (obstacle_frequency (state g))
       (inject_Z (current_time e - last_obstacle_time (state g))).

(** The number of ticks of a run on which the simulation was executed. *)
Fixpoint running_ticks (inputs : list (bool * Env)) (g : GameManager) : nat :=
  match inputs with
  | [] => 0
  | i :: rest =>
      ((if runningb g then 1 else 0)
       + running_ticks rest (tick (fst i) (snd i) g))%nat
  end.



(** ** Invariants of the reachable states *)

(** An obstacle as the game makes and keeps them, under game speed [gs]. *)
Definition obstacle_ok (gs : Q) (o : Obstacle.t) : Prop :=
  Obstacle.width o = OBSTACLE_WIDTH /\
  Obstacle.height o = OBSTACLE_HEIGHT /\
  Obstacle.y o =
    (if Obstacle.is_air_obstacle o then AIR_HEIGHT
     else GROUND_HEIGHT - OBSTACLE_HEIGHT)%Z /\
  inject_Z GAME_SPEED_INITIAL <= Obstacle.speed o /\
  Obstacle.speed o <= gs /\
  0 <= Obstacle.x o + inject_Z (Obstacle.width o).

(** The scroll offset is zero, or negative and less than one image width. *)
Definition bg_inv (b : Background.t) : Prop :=
  Background.min_x b == 0 \/
  (- inject_Z (Background.bg_width b) < Background.min_x b /\
   Background.min_x b <= 0).

Definition game_inv (g : GameManager) : Prop :=
  difficulty_inv (state g) /\
  inject_Z GAME_SPEED_INITIAL <= game_speed (state g) /\
  in_lanes (player g) /\
  Player.x (player g) = 100%Z /\
  Player.width (player g) = PLAYER_WIDTH /\
  (game_over (state g) = true -> has_started (state g) = true) /\
  Forall (obstacle_ok (game_speed (state g))) (obstacles g) /\
  bg_inv (background g).

(** Two frames from a new game: the space bar starts it and the first tick
    spawns; a second later the next tick spawns again. *)
Definition sample_frames : list Frame :=
  [([KEYDOWN K_SPACE], false, env_1001); ([], false, env_2002)].

(** [GameManager.draw], as far as it depends on the game state beyond the
    positions of the boxes: the integer shown in the score text
    ([int(self.state.score)]) and the messages rendered over the scene, in
    drawing order. *)
Definition draw_overlay (g : GameManager) : Z * list string :=
  (to_int (score (state g)),
   (if game_over (state g)
    then ["Game Over! Press SPACE to restart"%string] else [])
   ++ (if negb (has_started (state g))
       then ["Press SPACE to start"%string] else [])).

(** ** The simulation in binary64

    The definitions above compute with exact rationals, which decides every
    statement that rounding cannot change.  Where the rounding of a Python
    [float] operation decides a statement, the program is read again here
    with the numbers as IEEE 754 binary64 values and the operations of the
    machine: the same functions, statement by statement, on [float].  A
    Python [int] that meets a float is converted exactly (every integer of
    the program is far below 2^53). *)

Module B64.

(** A Python [int] as a float. *)
Definition of_Z (z : Z) : float :=
  if (z <? 0)%Z
  then PrimFloat.opp (PrimFloat.of_uint63 (Uint63.of_Z (- z)))
  else PrimFloat.of_uint63 (Uint63.of_Z z).

(** Python's [max(a, b)]: [b] when [b > a], else [a]. *)
Definition py_max (a b : float) : float :=
  if PrimFloat.ltb a b then b else a.

(** The exact value of a finite float. *)
Definition to_Q (f : float) : Q :=
  match Prim2SF f with
  | S754_finite s m e =>
      let v := if (0 <=? e)%Z
               then inject_Z (Z.pos m * 2 ^ e)
               else Z.pos m # (2 ^ Z.to_pos (- e)) in
      if s then - v else v
  | _ => 0
  end.

(** Conversion of a float to a C [int] by [pygame.Rect]: truncation toward
    zero. *)
Definition to_int (f : float) : Z :=
  match Prim2SF f with
  | S754_finite s m e =>
      let v := (if 0 <=? e then Z.pos m * 2 ^ e else Z.pos m / 2 ^ (- e))%Z in
      if s then (- v)%Z else v
  | _ => 0%Z
  end.

(** The literals [0.004] and [0.05], as Python reads them. *)
Definition GAME_SPEED_INCREMENT : float := 0x1.0624dd2f1a9fcp-8%float.
Definition SCORE_INCREMENT : float := 0x1.999999999999ap-5%float.

Record GameState : Type := mkGameState {
  game_over : bool;
  has_started : bool;
  score : float;
  game_speed : float;
  obstacle_frequency : float;
  last_obstacle_time : Z
}.

(** [GameState.reset] *)
Definition GameState_reset (_ : GameState) : GameState :=
  {| game_over := false;
     has_started := false;
     score := of_Z 0;
     game_speed := of_Z GAME_SPEED_INITIAL;
     obstacle_frequency := of_Z OBSTACLE_FREQUENCY_INITIAL;
     last_obstacle_time := 0 |}.

Definition set_game_over (b : bool) (s : GameState) : GameState :=
  {| game_over := b;
     has_started := has_started s;
     score := score s;
     game_speed := game_speed s;
     obstacle_frequency := obstacle_frequency s;
     last_obstacle_time := last_obstacle_time s |}.

Definition set_has_started (b : bool) (s : GameState) : GameState :=
  {| game_over := game_over s;
     has_started := b;
     score := score s;
     game_speed := game_speed s;
     obstacle_frequency := obstacle_frequency s;
     last_obstacle_time := last_obstacle_time s |}.

Definition set_last_obstacle_time (t : Z) (s : GameState) : GameState :=
  {| game_over := game_over s;
     has_started := has_started s;
     score := score s;
     game_speed := game_speed s;
     obstacle_frequency := obstacle_frequency s;
     last_obstacle_time := t |}.

(** [Background] *)
Record Bg : Type := mkBg { scroll_speed : float; min_x : float; bg_width : Z }.

Definition Bg_init (image_width : Z) : Bg :=
  {| scroll_speed := of_Z GAME_SPEED_INITIAL;
     min_x := of_Z 0;
     bg_width := image_width |}.

(** [Background.update] *)
Definition Bg_update (new_speed : float) (b : Bg) : Bg :=
  let min_x' := PrimFloat.sub (min_x b) new_speed in
  {| scroll_speed := new_speed;
     min_x := if PrimFloat.leb (of_Z (bg_width b)) (PrimFloat.abs min_x')
              then of_Z 0 else min_x';
     bg_width := bg_width b |}.

(** [Obstacle] *)
Record Ob : Type := mkOb {
  width : Z;
  height : Z;
  x : float;
  is_air_obstacle : bool;
  y : Z;
  speed : float
}.

(** [Obstacle.__init__(speed, is_air_obstacle)] *)
Definition Ob_init (speed0 : float) (is_air : bool) : Ob :=
  {| width := OBSTACLE_WIDTH;
     height := OBSTACLE_HEIGHT;
     x := of_Z SCREEN_WIDTH;
     is_air_obstacle := is_air;
     y := (if is_air then AIR_HEIGHT else GROUND_HEIGHT - OBSTACLE_HEIGHT)%Z;
     speed := speed0 |}.

Definition Ob_set_x (x' : float) (o : Ob) : Ob :=
  {| width := width o; height := height o; x := x';
     is_air_obstacle := is_air_obstacle o; y := y o; speed := speed o |}.

(** [Obstacle.update] *)
Definition Ob_update (o : Ob) : Ob := Ob_set_x (PrimFloat.sub (x o) (speed o)) o.

(** [Obstacle.get_rect] *)
Definition Ob_get_rect (o : Ob) : Rect.t :=
  Rect.mk (to_int (x o)) (y o) (width o) (height o).

(** [Obstacle.is_off_screen] *)
Definition Ob_is_off_screen (o : Ob) : bool :=
  PrimFloat.ltb (PrimFloat.add (x o) (of_Z (width o))) (of_Z 0).

Record GameManager : Type := mkGameManager {
  state : GameState;
  background : Bg;
  player : Player.t;
  obstacles : list Ob
}.

(** The loop over [self.obstacles[:]] in [GameManager.update]. *)
Fixpoint update_obstacles (obs : list Ob) : list Ob :=
  match obs with
  | [] => []
  | obstacle :: rest =>
      let obstacle' := Ob_update obstacle in
      if Ob_is_off_screen obstacle'
      then update_obstacles rest
      else obstacle' :: update_obstacles rest
  end.

(** The loop of [GameManager.check_collisions]. *)
Fixpoint collide_loop (player_rect : Rect.t) (obs : list Ob) (s : GameState)
    : GameState :=
  match obs with
  | [] => s
  | obstacle :: rest =>
      collide_loop player_rect rest
        (if Rect.colliderect player_rect (Ob_get_rect obstacle)
         then set_game_over true s else s)
  end.

(** [GameManager.check_collisions] *)
Definition check_collisions (g : GameManager) : GameManager :=
  {| state := collide_loop (Player.get_rect (player g)) (obstacles g) (state g);
     background := background g;
     player := player g;
     obstacles := obstacles g |}.

(** [GameManager.generate_obstacle] *)
Definition generate_obstacle (e : Env) (g : GameManager) : GameManager :=
  let is_air_obstacle := rand_air e in
  let new_obstacle := Ob_init (game_speed (state g)) is_air_obstacle in
  let new_obstacle :=
    match obstacles g with
    | [] => new_obstacle
    | _ :: _ =>
        let last_obstacle := last (obstacles g) new_obstacle in
        let min_distance := rand_dist e in
        Ob_set_x
          (py_max (of_Z SCREEN_WIDTH)
                  (PrimFloat.add (x last_obstacle) (of_Z min_distance)))
          new_obstacle
    end in
  {| state := state g;
     background := background g;
     player := player g;
     obstacles := obstacles g ++ [new_obstacle] |}.

(** The spawn test of [GameManager.update] and what follows it. *)
Definition maybe_spawn (e : Env) (g : GameManager) : GameManager :=
  if PrimFloat.ltb (obstacle_frequency (state g))
                   (of_Z (current_time e - last_obstacle_time (state g)))
  then
    let g' := generate_obstacle e g in
    {| state := set_last_obstacle_time (current_time e) (state g');
       background := background g';
       player := player g';
       obstacles := obstacles g' |}
  else g.

(** The difficulty and score update at the end of [GameManager.update]. *)
Definition advance_difficulty (s : GameState) : GameState :=
  let speed_multiplier :=
    PrimFloat.add (of_Z 1) (PrimFloat.div (score s) (of_Z 500)) in
  let game_speed' :=
    PrimFloat.add (game_speed s)
                  (PrimFloat.mul GAME_SPEED_INCREMENT speed_multiplier) in
  let score' := PrimFloat.add (score s) SCORE_INCREMENT in
  {| game_over := game_over s;
     has_started := has_started s;
     score := score';
     game_speed := game_speed';
     obstacle_frequency :=
       py_max (of_Z OBSTACLE_FREQUENCY_MIN)
              (PrimFloat.sub (of_Z OBSTACLE_FREQUENCY_INITIAL)
                             (PrimFloat.mul score' (of_Z 2)));
     last_obstacle_time := last_obstacle_time s |}.

Definition move_entities (g : GameManager) : GameManager :=
  {| state := state g;
     background := background g;
     player := Player.update (player g);
     obstacles := update_obstacles (obstacles g) |}.

(** [GameManager.update] *)
Definition update (e : Env) (g : GameManager) : GameManager :=
  if negb (has_started (state g)) then g
  else if game_over (state g) then g
  else
    let g1 := move_entities g in
    let g2 := check_collisions g1 in
    let g3 := maybe_spawn e g2 in
    let s4 := advance_difficulty (state g3) in
    {| state := s4;
       background := Bg_update (game_speed s4) (background g3);
       player := player g3;
       obstacles := obstacles g3 |}.

(** [GameManager.__init__] followed by the reset path of [handle_events]
    ([reset_game] and [has_started = True]). *)
Definition start (image_width : Z) : GameManager :=
  {| state :=
       set_has_started true
         (GameState_reset (mkGameState false false (of_Z 0) (of_Z 0) (of_Z 0) 0));
     background := Bg_init image_width;
     player := Player.init;
     obstacles := [] |}.

Definition set_player_in_air (b : bool) (g : GameManager) : GameManager :=
  {| state := state g;
     background := background g;
     player := Player.set_in_air b (player g);
     obstacles := obstacles g |}.

(** A frame without events: the control signal is sampled, then [update]. *)
Definition tick (air_requested : bool) (e : Env) (g : GameManager) : GameManager :=
  update e (set_player_in_air air_requested g).

Definition run (inputs : list (bool * Env)) (g : GameManager) : GameManager :=
  fold_left (fun g' i => tick (fst i) (snd i) g') inputs g.

End B64.

(** A session at 60 frames per second: the clock reads 1001 ms on the first
    tick and 17 ms more on each following one, the space bar is held, every
    obstacle drawn is a ground obstacle, and the distances drawn for the
    second, third and fourth spawn are 591, 332 and 300. *)
Definition session_env (k : nat) : Env :=
  {| current_time := 1001 + 17 * Z.of_nat k;
     rand_air := false;
     rand_dist := if (k <=? 59)%nat then 591
                  else if (k <=? 118)%nat then 332 else 300 |}.

Definition session (n : nat) : list (bool * Env) :=
  map (fun k => (true, session_env k)) (seq 0 n).
(** * Properties *)

(** ** Comparison primitives *)

Lemma Qltb_lt (a b : Q) : Qltb a b = true <-> a < b.
Proof.
  unfold Qltb. rewrite negb_true_iff.
  split; intro H.
  - apply Qnot_le_lt. intro Hle. apply Qle_bool_iff in Hle. congruence.
  - destruct (Qle_bool b a) eqn:E; [|reflexivity].
    apply Qle_bool_iff in E. exfalso. apply (Qlt_not_le _ _ H E).
Qed.

Lemma Qltb_ge (a b : Q) : Qltb a b = false <-> b <= a.
Proof.
  unfold Qltb. rewrite negb_false_iff. apply Qle_bool_iff.
Qed.

(** ** The player's lane motion *)

Section PlayerMotion.

Local Open Scope Z_scope.

(** The target computed by [Player.update] is one of the two lane
    altitudes. *)
Lemma Player_update_target (p : Player.t) :
  Player.target_y (Player.update p) =
    if Player.in_air p then AIR_HEIGHT else GROUND_HEIGHT - Player.height p.
Proof. reflexivity. Qed.

Lemma Player_update_height (p : Player.t) :
  Player.height (Player.update p) = Player.height p.
Proof. reflexivity. Qed.

(** One update moves [y] toward the target, never past it and never by
    more than the transition step. *)
Lemma Player_update_toward (p : Player.t) :
  let t := Player.target_y (Player.update p) in
  let y0 := Player.y p in
  let y1 := Player.y (Player.update p) in
  (y0 <= t -> y0 <= y1 <= t /\ y1 - y0 <= TRANSITION_SPEED) /\
  (t <= y0 -> t <= y1 <= y0 /\ y0 - y1 <= TRANSITION_SPEED).
Proof.
  unfold Player.update, TRANSITION_SPEED; cbn [Player.y Player.target_y].
  set (t := if Player.in_air p then AIR_HEIGHT
            else GROUND_HEIGHT - Player.height p).
  destruct (Z.ltb_spec (Player.y p) t) as [Hlt | Hge].
  - split; intros; lia.
  - destruct (Z.ltb_spec t (Player.y p)); split; intros; lia.
Qed.

Lemma in_lanes_init : in_lanes Player.init.
Proof. unfold in_lanes; cbn; unfold AIR_HEIGHT, GROUND_HEIGHT, PLAYER_HEIGHT; lia. Qed.

Lemma in_lanes_set_in_air (b : bool) (p : Player.t) :
  in_lanes p -> in_lanes (Player.set_in_air b p).
Proof. exact (fun H => H). Qed.

Lemma in_lanes_update (p : Player.t) : in_lanes p -> in_lanes (Player.update p).
Proof.
  intros [Hh Hy]. split; [exact Hh|].
  pose proof (Player_update_toward p) as [Hup Hdown].
  rewrite Player_update_target, Hh in Hup, Hdown.
  cbv zeta in Hup, Hdown.
  unfold AIR_HEIGHT, GROUND_HEIGHT, PLAYER_HEIGHT, TRANSITION_SPEED in *.
  destruct (Player.in_air p); lia.
Qed.

Lemma in_lanes_steps (signals : list bool) (p : Player.t) :
  in_lanes p -> in_lanes (Player.steps signals p).
Proof.
  revert p. induction signals as [|b signals IH]; intros p Hp; [exact Hp|].
  apply IH, in_lanes_update, in_lanes_set_in_air, Hp.
Qed.

End PlayerMotion.

(** C5. For every player state and every value of the control signal, one
    [Player.update] changes [y] by at most [TRANSITION_SPEED], and the new
    [y] is never strictly beyond the new [target_y] in the direction of
    travel: moving down (increasing [y]) it stays at or above the target,
    moving up it stays at or below it, and at the target it does not move. *)
Theorem C5_lane_continuity (p : Player.t) (air_requested : bool) :
  let p' := Player.update (Player.set_in_air air_requested p) in
  (Z.abs (Player.y p' - Player.y p) <= TRANSITION_SPEED)%Z /\
  (Player.y p < Player.y p' -> Player.y p' <= Player.target_y p')%Z /\
  (Player.y p' < Player.y p -> Player.target_y p' <= Player.y p')%Z /\
  (Player.y p = Player.target_y p' -> Player.y p' = Player.y p)%Z.
Proof.
  intro p'.
  pose proof (Player_update_toward (Player.set_in_air air_requested p)) as [Hup Hdown].
  cbv zeta in Hup, Hdown. fold p' in Hup, Hdown.
  change (Player.y (Player.set_in_air air_requested p)) with (Player.y p) in *.
  unfold TRANSITION_SPEED in *.
  destruct (Z.le_ge_cases (Player.y p) (Player.target_y p')) as [H | H].
  - specialize (Hup H). repeat split; try lia.
  - specialize (Hdown H). repeat split; try lia.
Qed.


(** ** The steps of [GameManager.update] on the game state *)

Lemma collide_loop_frame (r : Rect.t) (obs : list Obstacle.t) (s : GameState) :
  has_started (collide_loop r obs s) = has_started s /\
  score (collide_loop r obs s) = score s /\
  game_speed (collide_loop r obs s) = game_speed s /\
  obstacle_frequency (collide_loop r obs s) = obstacle_frequency s /\
  last_obstacle_time (collide_loop r obs s) = last_obstacle_time s.
Proof.
  revert s. induction obs as [|o obs IH]; intro s; cbn [collide_loop].
  - repeat split.
  - destruct (Rect.colliderect r (Obstacle.get_rect o));
      [exact (IH (set_game_over true s)) | exact (IH s)].
Qed.

(** The flag after the loop: set when it was set before or some obstacle
    collides. *)
Lemma collide_loop_game_over (r : Rect.t) (obs : list Obstacle.t) (s : GameState) :
  game_over (collide_loop r obs s) =
    game_over s || existsb (fun o => Rect.colliderect r (Obstacle.get_rect o)) obs.
Proof.
  revert s. induction obs as [|o obs IH]; intro s; cbn [collide_loop existsb].
  - now rewrite orb_false_r.
  - rewrite IH.
    destruct (Rect.colliderect r (Obstacle.get_rect o)); cbn.
    + now rewrite orb_true_r.
    + reflexivity.
Qed.

Lemma maybe_spawn_frame (e : Env) (g : GameManager) :
  game_over (state (maybe_spawn e g)) = game_over (state g) /\
  has_started (state (maybe_spawn e g)) = has_started (state g) /\
  score (state (maybe_spawn e g)) = score (state g) /\
  game_speed (state (maybe_spawn e g)) = game_speed (state g) /\
  obstacle_frequency (state (maybe_spawn e g)) = obstacle_frequency (state g) /\
  player (maybe_spawn e g) = player g /\
  background (maybe_spawn e g) = background g.
Proof.
  unfold maybe_spawn.
  destruct (Qltb _ _); repeat split.
Qed.


Lemma update_not_running (e : Env) (g : GameManager) :
  has_started (state g) = false \/ game_over (state g) = true -> update e g = g.
Proof.
  unfold update. intros [H | H]; rewrite H; cbn; [reflexivity|].
  destruct (has_started (state g)); reflexivity.
Qed.

Lemma update_running (e : Env) (g : GameManager) :
  running g ->
  update e g =
    let g3 := maybe_spawn e (check_collisions (move_entities g)) in
    let s4 := advance_difficulty (state g3) in
    {| state := s4;
       background := Background.update (game_speed s4) (background g3);
       player := player g3;
       obstacles := obstacles g3 |}.
Proof.
  intros [Hs Ho]. unfold update. rewrite Hs, Ho. reflexivity.
Qed.

(** The game state after a running tick, field by field. *)
Lemma update_running_state (e : Env) (g : GameManager) :
  running g ->
  let r := Player.get_rect (Player.update (player g)) in
  let obs := update_obstacles (obstacles g) in
  has_started (state (update e g)) = true /\
  game_over (state (update e g)) =
    existsb (fun o => Rect.colliderect r (Obstacle.get_rect o)) obs /\
  score (state (update e g)) = score (state g) + SCORE_INCREMENT /\
  game_speed (state (update e g)) =
    game_speed (state g) + GAME_SPEED_INCREMENT * (1 + score (state g) / 500) /\
  obstacle_frequency (state (update e g)) =
    Qmax (inject_Z OBSTACLE_FREQUENCY_MIN)
         (inject_Z OBSTACLE_FREQUENCY_INITIAL - score (state (update e g)) * 2).
Proof.
  intros Hrun r obs. rewrite (update_running e g Hrun). cbv zeta.
  destruct Hrun as [Hs Ho].
  destruct (maybe_spawn_frame e (check_collisions (move_entities g)))
    as (Hgo & Hhs & Hsc & Hsp & _).
  destruct (collide_loop_frame r obs (state g)) as (Chs & Csc & Csp & _).
  pose proof (collide_loop_game_over r obs (state g)) as Cgo.
  rewrite Ho in Cgo; cbn [orb] in Cgo.
  cbn [state advance_difficulty has_started game_over score game_speed
       obstacle_frequency].
  rewrite Hgo, Hhs, Hsc, Hsp.
  unfold check_collisions, move_entities; cbn [state player obstacles].
  fold r obs. rewrite Chs, Csc, Csp, Cgo, Hs.
  repeat split.
Qed.

Lemma update_running_player (e : Env) (g : GameManager) :
  running g -> player (update e g) = Player.update (player g).
Proof.
  intro Hrun. rewrite (update_running e g Hrun). cbv zeta. cbn [player].
  now destruct (maybe_spawn_frame e (check_collisions (move_entities g)))
    as (_ & _ & _ & _ & _ & -> & _).
Qed.


(** A frame with no queued event is a tick. *)
Lemma frame_no_event (a : bool) (e : Env) (g : GameManager) :
  frame [] a e g = Some (tick a e g).
Proof. reflexivity. Qed.

(** ** Difficulty *)

Lemma running_start : running start.
Proof. split; reflexivity. Qed.

(** C7. On a running tick the game speed grows by
    [GAME_SPEED_INCREMENT * (1 + score / 500)] with the score read before the
    tick's score increment, the score grows by [SCORE_INCREMENT], and the
    spawn interval becomes
    [max(OBSTACLE_FREQUENCY_MIN, OBSTACLE_FREQUENCY_INITIAL - score * 2)] with
    the score as it is at that point of the tick, after the increment. *)
Theorem C7_difficulty_formulas (e : Env) (g : GameManager) :
  running g ->
  game_speed (state (update e g)) =
    game_speed (state g) + GAME_SPEED_INCREMENT * (1 + score (state g) / 500) /\
  score (state (update e g)) = score (state g) + SCORE_INCREMENT /\
  obstacle_frequency (state (update e g)) =
    Qmax (inject_Z OBSTACLE_FREQUENCY_MIN)
         (inject_Z OBSTACLE_FREQUENCY_INITIAL - score (state (update e g)) * 2).
Proof.
  intro Hrun.
  destruct (update_running_state e g Hrun) as (_ & _ & Hsc & Hsp & Hfr).
  auto.
Qed.

Lemma C7_difficulty_formulas_witness :
  running start /\
  game_speed (state (update env_1001 start)) =
    game_speed (state start)
    + GAME_SPEED_INCREMENT * (1 + score (state start) / 500) /\
  score (state (update env_1001 start)) = score (state start) + SCORE_INCREMENT /\
  obstacle_frequency (state (update env_1001 start)) =
    Qmax (inject_Z OBSTACLE_FREQUENCY_MIN)
         (inject_Z OBSTACLE_FREQUENCY_INITIAL
          - score (state (update env_1001 start)) * 2).
Proof.
  split.
  - split; reflexivity.
  - apply (C7_difficulty_formulas env_1001 start). split; reflexivity.
Defined.

Lemma tick_state_cases (a : bool) (e : Env) (g : GameManager) :
  (running g /\ tick a e g = update e (set_player_in_air a g) /\
   running (set_player_in_air a g)) \/
  (~ running g /\ tick a e g = set_player_in_air a g).
Proof.
  unfold running, tick.
  destruct (has_started (state g)) eqn:Hs, (game_over (state g)) eqn:Ho.
  - right. split; [intros [_ H]; discriminate|].
    apply update_not_running. right. exact Ho.
  - left. repeat split; assumption.
  - right. split; [intros [H _]; discriminate|].
    apply update_not_running. left. exact Hs.
  - right. split; [intros [H _]; discriminate|].
    apply update_not_running. left. exact Hs.
Qed.

Lemma difficulty_inv_restart (g : GameManager) : difficulty_inv (state (restart g)).
Proof. split; [apply Qle_refl | vm_compute; reflexivity]. Qed.

Lemma difficulty_inv_floor (s : GameState) :
  difficulty_inv s -> inject_Z OBSTACLE_FREQUENCY_MIN <= obstacle_frequency s.
Proof.
  intros [_ Hf]. rewrite Hf. apply Q.le_max_l.
Qed.

Lemma difficulty_inv_tick (a : bool) (e : Env) (g : GameManager) :
  difficulty_inv (state g) -> difficulty_inv (state (tick a e g)).
Proof.
  intros [Hsc Hf].
  destruct (tick_state_cases a e g) as [(_ & -> & Hrun) | (_ & ->)].
  - destruct (update_running_state e _ Hrun) as (_ & _ & Hsc' & _ & Hf').
    split.
    + rewrite Hsc'. cbn [state set_player_in_air]. unfold SCORE_INCREMENT. lra.
    + rewrite Hf'. reflexivity.
  - split; assumption.
Qed.

(** One tick never lowers the speed and never raises the spawn interval. *)
Lemma tick_monotone (a : bool) (e : Env) (g : GameManager) :
  difficulty_inv (state g) ->
  game_speed (state g) <= game_speed (state (tick a e g)) /\
  obstacle_frequency (state (tick a e g)) <= obstacle_frequency (state g).
Proof.
  intros [Hsc Hf].
  destruct (tick_state_cases a e g) as [(_ & -> & Hrun) | (_ & ->)].
  - destruct (update_running_state e _ Hrun) as (_ & _ & Hsc' & Hsp' & Hf').
    rewrite Hsp', Hf', Hsc', Hf. cbn [state set_player_in_air].
    unfold GAME_SPEED_INCREMENT, SCORE_INCREMENT.
    change (inject_Z OBSTACLE_FREQUENCY_MIN) with 500.
    change (inject_Z OBSTACLE_FREQUENCY_INITIAL) with 1000.
    split.
    + unfold Qdiv. change (/ 500) with (1 # 500). lra.
    + destruct (Q.max_spec 500 (1000 - (score (state g) + (5 # 100)) * 2))
        as [[_ ->] | [_ ->]];
      destruct (Q.max_spec 500 (1000 - score (state g) * 2))
        as [[? ->] | [? ->]]; lra.
  - cbn [state set_player_in_air]. split; apply Qle_refl.
Qed.

Lemma difficulty_inv_run (inputs : list (bool * Env)) (g : GameManager) :
  difficulty_inv (state g) -> difficulty_inv (state (run inputs g)).
Proof.
  revert g. induction inputs as [|i inputs IH]; intros g Hg; [exact Hg|].
  apply IH, difficulty_inv_tick, Hg.
Qed.

Lemma run_monotone (inputs : list (bool * Env)) (g : GameManager) :
  difficulty_inv (state g) ->
  game_speed (state g) <= game_speed (state (run inputs g)) /\
  obstacle_frequency (state (run inputs g)) <= obstacle_frequency (state g).
Proof.
  revert g. induction inputs as [|i inputs IH]; intros g Hg.
  - split; apply Qle_refl.
  - destruct (tick_monotone (fst i) (snd i) g Hg) as [H1 H2].
    destruct (IH _ (difficulty_inv_tick (fst i) (snd i) g Hg)) as [H3 H4].
    cbn [run fold_left] in *. split; eapply Qle_trans; eassumption.
Qed.

(** C6. In a run that begins with the reset path and goes through any ticks,
    the game speed at a later tick is at least the speed at an earlier one,
    the spawn interval at a later tick is at most the interval at an earlier
    one, and the interval is never below [OBSTACLE_FREQUENCY_MIN]. *)
Theorem C6_monotonic_difficulty (g0 : GameManager)
    (before after : list (bool * Env)) :
  let g := run before (restart g0) in
  let g' := run after g in
  game_speed (state g) <= game_speed (state g') /\
  obstacle_frequency (state g') <= obstacle_frequency (state g) /\
  inject_Z OBSTACLE_FREQUENCY_MIN <= obstacle_frequency (state g').
Proof.
  intros g g'.
  assert (Hg : difficulty_inv (state g))
    by apply difficulty_inv_run, difficulty_inv_restart.
  destruct (run_monotone after g Hg) as [H1 H2].
  repeat split; try assumption.
  apply difficulty_inv_floor, difficulty_inv_run, Hg.
Qed.

(** ** Game over *)

Lemma run_game_over (inputs : list (bool * Env)) (g : GameManager) :
  game_over (state g) = true ->
  state (run inputs g) = state g /\
  obstacles (run inputs g) = obstacles g /\
  background (run inputs g) = background g /\
  Player.x (player (run inputs g)) = Player.x (player g) /\
  Player.y (player (run inputs g)) = Player.y (player g) /\
  Player.target_y (player (run inputs g)) = Player.target_y (player g) /\
  Player.width (player (run inputs g)) = Player.width (player g) /\
  Player.height (player (run inputs g)) = Player.height (player g).
Proof.
  revert g. induction inputs as [|[a e] inputs IH]; intros g Hover.
  - repeat split.
  - cbn [run fold_left fst snd].
    unfold tick.
    rewrite (update_not_running e (set_player_in_air a g)) by (right; exact Hover).
    exact (IH (set_player_in_air a g) Hover).
Qed.

(** C8. When [game_over] is set, [GameManager.update] returns the state it
    was given, and after any number of ticks the game state (score, speed,
    spawn interval, flags, spawn time), the obstacle list with every
    obstacle in it, the background and the player's position, target and box
    are what they were.  (Only the sampled control signal [in_air] follows
    the space bar.) *)
Theorem C8_game_over_frozen (g : GameManager) (inputs : list (bool * Env)) :
  game_over (state g) = true ->
  (forall e, update e g = g) /\
  state (run inputs g) = state g /\
  obstacles (run inputs g) = obstacles g /\
  background (run inputs g) = background g /\
  Player.x (player (run inputs g)) = Player.x (player g) /\
  Player.y (player (run inputs g)) = Player.y (player g) /\
  Player.target_y (player (run inputs g)) = Player.target_y (player g) /\
  Player.width (player (run inputs g)) = Player.width (player g) /\
  Player.height (player (run inputs g)) = Player.height (player g).
Proof.
  intro Hover. split.
  - intro e. apply update_not_running. right. exact Hover.
  - apply run_game_over, Hover.
Qed.

Lemma C8_game_over_frozen_witness :
  game_over (state stopped) = true /\
  update env_2002 stopped = stopped /\
  score (state (run [(true, env_2002); (false, env_2003)] stopped)) = 68 # 10 /\
  obstacles (run [(true, env_2002); (false, env_2003)] stopped)
    = obstacles stopped /\
  Player.y (player (run [(true, env_2002); (false, env_2003)] stopped))
    = (GROUND_HEIGHT - PLAYER_HEIGHT)%Z.
Proof.
  split; [reflexivity|].
  destruct (C8_game_over_frozen stopped [(true, env_2002); (false, env_2003)]
              eq_refl) as (Hupd & Hst & Hobs & _ & _ & Hy & _).
  split; [exact (Hupd env_2002)|].
  split; [rewrite Hst; reflexivity|].
  split; [exact Hobs|].
  rewrite Hy. reflexivity.
Defined.

(** ** Collisions *)

Lemma phase_running (g : GameManager) : phase g = RUNNING <-> running g.
Proof.
  unfold phase, running.
  destruct (has_started (state g)), (game_over (state g)); cbn;
    split; intro H; try discriminate; try reflexivity;
    try (split; reflexivity); destruct H; discriminate.
Qed.

(** C3 (amended). On a tick executed while running, the phase after the tick
    is GAME_OVER when the player's rectangle, after the player's update,
    overlaps the rectangle of some obstacle left in the list after the move
    and prune loop, and RUNNING when it overlaps none; in both cases the rest
    of the tick is carried out and the score grows by [SCORE_INCREMENT]. *)
Theorem C3_collision_tick (e : Env) (g : GameManager) :
  running g ->
  phase (update e g) =
    (if existsb (collides (Player.update (player g)))
                (update_obstacles (obstacles g))
     then GAME_OVER else RUNNING) /\
  score (state (update e g)) = score (state g) + SCORE_INCREMENT.
Proof.
  intro Hrun.
  destruct (update_running_state e g Hrun) as (Hhs & Hgo & Hsc & _).
  cbv zeta in Hgo. split; [|exact Hsc].
  unfold phase. rewrite Hhs, Hgo. cbn [negb]. reflexivity.
Qed.

Lemma C3_collision_tick_witness :
  running start /\
  phase (update env_1001 start) = RUNNING /\
  score (state (update env_1001 start)) = score (state start) + SCORE_INCREMENT.
Proof.
  split; [split; reflexivity|].
  exact (C3_collision_tick env_1001 start (conj eq_refl eq_refl)).
Defined.

Lemma running_before_hit : running before_hit.
Proof. split; lazy; reflexivity. Qed.

(** The obstacle of [before_hit] touches the player's right edge: it stands
    at [x = 130], the player's box ends at [100 + 30]. *)
Lemma before_hit_obstacles :
  obstacles before_hit = [Obstacle.set_x 130 first_obstacle].
Proof. lazy. reflexivity. Qed.

Lemma before_hit_player : player before_hit = Player.init.
Proof. lazy. reflexivity. Qed.

(** A tick on which some obstacle overlaps the player ends in GAME_OVER, and
    its score increment has been applied. *)
Lemma tick_collision (a : bool) (e : Env) (g : GameManager) :
  running g ->
  existsb (collides (Player.update (Player.set_in_air a (player g))))
          (update_obstacles (obstacles g)) = true ->
  phase (tick a e g) = GAME_OVER /\
  score (state (tick a e g)) = score (state g) + SCORE_INCREMENT.
Proof.
  intros Hrun Hhit.
  assert (Hrun' : running (set_player_in_air a g)) by exact Hrun.
  destruct (update_running_state e _ Hrun') as (Hhs & Hgo & Hsc & _).
  cbv zeta in Hgo. cbn [player obstacles set_player_in_air] in Hgo.
  unfold tick. split; [|exact Hsc].
  unfold phase. rewrite Hhs, Hgo. cbn [negb].
  unfold collides in Hhit. rewrite Hhit. reflexivity.
Qed.

Lemma before_hit_collides :
  existsb (collides (Player.update (Player.set_in_air false (player before_hit))))
          (update_obstacles (obstacles before_hit)) = true.
Proof.
  rewrite before_hit_obstacles, before_hit_player. vm_compute. reflexivity.
Qed.

(** The claim C3 fails on the tick after [before_hit]: the obstacle moves to
    [x = 125] and overlaps the player, the phase becomes GAME_OVER on that
    tick, and the score of that tick is larger than before it. *)
Lemma C3_counterexample :
  phase before_hit = RUNNING /\
  existsb (collides (Player.update (Player.set_in_air false (player before_hit))))
          (update_obstacles (obstacles before_hit)) = true /\
  phase (tick false env_1001 before_hit) = GAME_OVER /\
  score (state (tick false env_1001 before_hit))
    = score (state before_hit) + SCORE_INCREMENT /\
  ~ score (state (tick false env_1001 before_hit)) == score (state before_hit).
Proof.
  destruct (tick_collision false env_1001 before_hit
              running_before_hit before_hit_collides) as [Hp Hs].
  split; [apply phase_running, running_before_hit|].
  split; [exact before_hit_collides|].
  split; [exact Hp|].
  split; [exact Hs|].
  rewrite Hs. generalize (score (state before_hit)). intros q H.
  unfold SCORE_INCREMENT in H. lra.
Qed.

(** ** Reset *)

Lemma reset_game_idempotent (g : GameManager) :
  reset_game (reset_game g) = reset_game g.
Proof. reflexivity. Qed.

Lemma restart_idempotent (g : GameManager) : restart (restart g) = restart g.
Proof. reflexivity. Qed.

(** A press of the space bar in the GAME_OVER or NOT_STARTED phase runs the
    reset path; while RUNNING it changes nothing. *)
Lemma handle_space (g : GameManager) :
  handle_event (KEYDOWN K_SPACE) g =
    Some (match phase g with RUNNING => g | _ => restart g end).
Proof.
  unfold handle_event, phase.
  destruct (game_over (state g)), (has_started (state g)); reflexivity.
Qed.

(** The claim C4 fails on [reset_game] taken alone: from a game-over state it
    clears [has_started] too, so the phase after it is NOT_STARTED. *)
Lemma C4_counterexample :
  phase stopped = GAME_OVER /\
  phase (reset_game stopped) = NOT_STARTED /\
  phase (reset_game (reset_game stopped)) = NOT_STARTED /\
  phase (reset_game stopped) <> RUNNING.
Proof. repeat split; try reflexivity. discriminate. Qed.

(** C4 (amended). From any state, [reset_game] is idempotent and leaves
    score 0, no obstacles, a new player at the ground baseline and both flags
    cleared, which is the NOT_STARTED phase.  The reset path of
    [handle_events], [reset_game] followed by [has_started = True], is
    idempotent as well and ends in the RUNNING phase with the same score,
    obstacles and player; a second press of the space bar then changes
    nothing. *)
Theorem C4_reset_idempotent (g : GameManager) :
  (reset_game (reset_game g) = reset_game g /\
   score (state (reset_game g)) = 0 /\
   obstacles (reset_game g) = [] /\
   player (reset_game g) = Player.init /\
   Player.y (player (reset_game g)) = (GROUND_HEIGHT - PLAYER_HEIGHT)%Z /\
   game_over (state (reset_game g)) = false /\
   has_started (state (reset_game g)) = false /\
   phase (reset_game g) = NOT_STARTED) /\
  (restart (restart g) = restart g /\
   score (state (restart g)) = 0 /\
   obstacles (restart g) = [] /\
   player (restart g) = Player.init /\
   Player.y (player (restart g)) = (GROUND_HEIGHT - PLAYER_HEIGHT)%Z /\
   phase (restart g) = RUNNING /\
   handle_event (KEYDOWN K_SPACE) (restart g) = Some (restart g)).
Proof. repeat split. Qed.

(** ** Spawning *)

Lemma generate_obstacle_obstacles (e : Env) (g : GameManager) :
  exists next,
    obstacles (generate_obstacle e g) = obstacles g ++ [next] /\
    inject_Z SCREEN_WIDTH <= Obstacle.x next /\
    forall earlier prev,
      obstacles g = earlier ++ [prev] ->
      Obstacle.x prev + inject_Z (rand_dist e) <= Obstacle.x next.
Proof.
  unfold generate_obstacle; cbn [obstacles].
  eexists; split; [reflexivity|].
  destruct (obstacles g) as [|o obs] eqn:Hobs.
  - split; [apply Qle_refl|].
    intros earlier prev H. destruct earlier; discriminate.
  - cbn [Obstacle.x Obstacle.set_x].
    split; [apply Q.le_max_l|].
    intros earlier prev ->. rewrite last_last. apply Q.le_max_r.
Qed.

(** In exact arithmetic the placement rule of [generate_obstacle] keeps the
    new obstacle at least [OBSTACLE_DISTANCE_MIN] to the right of the one
    spawned before it, whether that one is still the last of the list, at any
    position, or has already left the list by being off screen.  The program
    rounds the sum [last_obstacle.x + min_distance]; what that does to the
    distance is settled on the binary64 reading of the program. *)
Lemma spawn_spacing_exact (e : Env) (g : GameManager) (prev : Obstacle.t) :
  (OBSTACLE_DISTANCE_MIN <= rand_dist e <= OBSTACLE_DISTANCE_MAX)%Z ->
  (exists earlier, obstacles g = earlier ++ [prev]) \/
  (Obstacle.is_off_screen prev = true /\ Obstacle.width prev = OBSTACLE_WIDTH) ->
  exists next,
    obstacles (generate_obstacle e g) = obstacles g ++ [next] /\
    inject_Z OBSTACLE_DISTANCE_MIN <= Obstacle.x next - Obstacle.x prev.
Proof.
  intros [Hmin _] Hprev.
  destruct (generate_obstacle_obstacles e g) as (next & Heq & Hedge & Hlast).
  exists next. split; [exact Heq|].
  destruct Hprev as [[earlier Hobs] | [Hoff Hw]].
  - specialize (Hlast earlier prev Hobs).
    assert (inject_Z OBSTACLE_DISTANCE_MIN <= inject_Z (rand_dist e))
      by (rewrite <- Zle_Qle; exact Hmin).
    lra.
  - apply Qltb_lt in Hoff. rewrite Hw in Hoff.
    change (inject_Z OBSTACLE_WIDTH) with 30 in Hoff.
    change (inject_Z SCREEN_WIDTH) with 800 in Hedge.
    change (inject_Z OBSTACLE_DISTANCE_MIN) with 300.
    lra.
Qed.

(** ** Obstacle motion and pruning *)

Lemma update_obstacles_filter (obs : list Obstacle.t) :
  update_obstacles obs =
    filter (fun o => negb (Obstacle.is_off_screen o)) (map Obstacle.update obs).
Proof.
  induction obs as [|o obs IH]; cbn [update_obstacles map filter]; [reflexivity|].
  rewrite IH. destruct (Obstacle.is_off_screen (Obstacle.update o)); reflexivity.
Qed.

Lemma is_off_screen_iff (o : Obstacle.t) :
  Obstacle.is_off_screen o = true <->
  Obstacle.x o + inject_Z (Obstacle.width o) < 0.
Proof. apply Qltb_lt. Qed.

Lemma Obstacle_update_fields (o : Obstacle.t) :
  Obstacle.x (Obstacle.update o) = Obstacle.x o - Obstacle.speed o /\
  Obstacle.speed (Obstacle.update o) = Obstacle.speed o /\
  Obstacle.y (Obstacle.update o) = Obstacle.y o /\
  Obstacle.width (Obstacle.update o) = Obstacle.width o /\
  Obstacle.height (Obstacle.update o) = Obstacle.height o /\
  Obstacle.is_air_obstacle (Obstacle.update o) = Obstacle.is_air_obstacle o.
Proof. repeat split. Qed.




(** The claim C9 fails at the boundary: after 166 advances the obstacle is
    at [x = -30], which is [x <= -30], and it is still in the list. *)
Lemma C9_counterexample :
  exists o,
    Nat.iter 166 update_obstacles [first_obstacle] = [o] /\
    Obstacle.x o = -30 /\
    Obstacle.x o <= -30 /\
    Obstacle.is_off_screen o = false.
Proof.
  eexists. split; [vm_compute; reflexivity|].
  split; [reflexivity|]. split; [apply Qle_refl | reflexivity].
Qed.

(** C9 (amended). The move and prune loop keeps, in order, exactly the
    moved obstacles that are not off screen, and an obstacle is off screen
    exactly when [x + width < 0]: an obstacle with [x + width >= 0] after
    its update stays.  On a running tick the obstacle list is the result of
    that loop followed by what the tick spawned.  The obstacle created at
    [x = 800] with width 30 and speed 5 is still in the list after 166
    advances, at [x = -30], and is removed by the 167th, at [x = -35]. *)
Theorem C9_off_screen_pruning (e : Env) (g : GameManager) :
  running g ->
  (exists spawned,
     obstacles (update e g) = update_obstacles (obstacles g) ++ spawned /\
     forall n, In n spawned -> inject_Z SCREEN_WIDTH <= Obstacle.x n) /\
  (forall obs,
     update_obstacles obs =
       filter (fun o => negb (Obstacle.is_off_screen o))
              (map Obstacle.update obs)) /\
  (forall o,
     Obstacle.is_off_screen o = true <->
     Obstacle.x o + inject_Z (Obstacle.width o) < 0) /\
  Nat.iter 166 update_obstacles [first_obstacle]
    = [Obstacle.set_x (-30) first_obstacle] /\
  Nat.iter 167 update_obstacles [first_obstacle] = [].
Proof.
  intro Hrun. split; [|split; [|split; [|split]]].
  - rewrite (update_running e g Hrun). cbv zeta. cbn [obstacles].
    unfold maybe_spawn. destruct (Qltb _ _).
    + destruct (generate_obstacle_obstacles e (check_collisions (move_entities g)))
        as (next & Heq & Hedge & _).
      exists [next]. split; [exact Heq|].
      intros n [<- | []]. exact Hedge.
    + exists []. split; [now rewrite app_nil_r | intros n []].
  - exact update_obstacles_filter.
  - exact is_off_screen_iff.
  - vm_compute. reflexivity.
  - vm_compute. reflexivity.
Qed.

Lemma C9_off_screen_pruning_witness :
  running start /\
  Nat.iter 166 update_obstacles [first_obstacle]
    = [Obstacle.set_x (-30) first_obstacle] /\
  Nat.iter 167 update_obstacles [first_obstacle] = [].
Proof.
  split; [split; reflexivity|].
  exact (proj2 (proj2 (proj2
           (C9_off_screen_pruning env_1001 start (conj eq_refl eq_refl))))).
Defined.

(** ** The player inside the game *)

Lemma in_lanes_tick (a : bool) (e : Env) (g : GameManager) :
  in_lanes (player g) -> in_lanes (player (tick a e g)).
Proof.
  intro Hp.
  destruct (tick_state_cases a e g) as [(_ & -> & Hrun) | (_ & ->)].
  - rewrite (update_running_player e _ Hrun).
    apply in_lanes_update, in_lanes_set_in_air, Hp.
  - apply in_lanes_set_in_air, Hp.
Qed.

Lemma in_lanes_run (inputs : list (bool * Env)) (g : GameManager) :
  in_lanes (player g) -> in_lanes (player (run inputs g)).
Proof.
  revert g. induction inputs as [|i inputs IH]; intros g Hg; [exact Hg|].
  apply IH, in_lanes_tick, Hg.
Qed.

(** C10. From [Player()] and under every sequence of control signals, [y]
    stays in the closed interval from [AIR_HEIGHT] to
    [GROUND_HEIGHT - PLAYER_HEIGHT]; the same holds for the player of a game
    after the reset path and any sequence of ticks. *)
Theorem C10_player_y_in_lanes (signals : list bool) (g0 : GameManager)
    (inputs : list (bool * Env)) :
  (AIR_HEIGHT <= Player.y (Player.steps signals Player.init)
     <= GROUND_HEIGHT - PLAYER_HEIGHT)%Z /\
  (AIR_HEIGHT <= Player.y (player (run inputs (restart g0)))
     <= GROUND_HEIGHT - PLAYER_HEIGHT)%Z.
Proof.
  split.
  - exact (proj2 (in_lanes_steps signals Player.init in_lanes_init)).
  - exact (proj2 (in_lanes_run inputs (restart g0) in_lanes_init)).
Qed.

(** ** The written-out game-over state

    [stopped] carries the flags, score, spawn interval, spawn time, player
    and obstacle that the run of [before_hit] has after its next tick. *)

Lemma stopped_reached :
  let g := tick false env_1001 before_hit in
  game_over (state g) = game_over (state stopped) /\
  has_started (state g) = has_started (state stopped) /\
  score (state g) == score (state stopped) /\
  obstacle_frequency (state g) == obstacle_frequency (state stopped) /\
  last_obstacle_time (state g) = last_obstacle_time (state stopped) /\
  player g = player stopped /\
  obstacles g = obstacles stopped.
Proof. lazy. repeat split. Qed.

(** ** Spawn spacing in binary64 *)

(** The two float literals of the program are the binary64 values nearest to
    0.004 and 0.05: each is within half a unit in the last place. *)
Lemma B64_literals :
  Qabs (B64.to_Q B64.GAME_SPEED_INCREMENT - (4 # 1000)) < 1 # (2 ^ 61) /\
  Qabs (B64.to_Q B64.SCORE_INCREMENT - (5 # 100)) < 1 # (2 ^ 58).
Proof. split; vm_compute; reflexivity. Qed.

(** The session is a run of the game: it has started and is not over, before
    and after its 177th tick. *)
Lemma session_running :
  let g := B64.run (session 176) (B64.start 1600) in
  let g' := B64.tick true (session_env 176) g in
  B64.has_started (B64.state g) = true /\
  B64.game_over (B64.state g) = false /\
  B64.game_over (B64.state g') = false.
Proof. vm_compute. repeat split. Qed.

(** C1. The claim fails on the program at the 177th tick of the session: a
    distance of 300, within the bounds of the draw, is added to the position
    of the obstacle spawned before, the binary64 sum is rounded down, and the
    new obstacle is created [300 - 2^-43] to the right of it, less than
    [OBSTACLE_DISTANCE_MIN]. *)
Theorem C1_spawn_spacing_binary64 :
  let g := B64.run (session 176) (B64.start 1600) in
  let g' := B64.tick true (session_env 176) g in
  (OBSTACLE_DISTANCE_MIN <= rand_dist (session_env 176)
     <= OBSTACLE_DISTANCE_MAX)%Z /\
  exists earlier prev next,
    B64.update_obstacles (B64.obstacles g) = [earlier; prev] /\
    B64.obstacles g' = [earlier; prev; next] /\
    B64.x next =
      B64.py_max (B64.of_Z SCREEN_WIDTH)
        (PrimFloat.add (B64.x prev) (B64.of_Z (rand_dist (session_env 176)))) /\
    B64.to_Q (B64.x prev) == 7050063902407289 # (2 ^ 43) /\
    B64.to_Q (B64.x next) == 4844445904534844 # (2 ^ 42) /\
    B64.to_Q (B64.x next) - B64.to_Q (B64.x prev) == 300 - (1 # (2 ^ 43)) /\
    B64.to_Q (B64.x next) - B64.to_Q (B64.x prev)
      < inject_Z OBSTACLE_DISTANCE_MIN /\
    PrimFloat.ltb (PrimFloat.sub (B64.x next) (B64.x prev))
                  (B64.of_Z OBSTACLE_DISTANCE_MIN) = true.
Proof.
  cbv zeta. split; [vm_compute; split; discriminate|].
  do 3 eexists.
  split; [vm_compute; reflexivity|].
  split; [vm_compute; reflexivity|].
  split; [vm_compute; reflexivity|].
  split; [vm_compute; reflexivity|].
  split; [vm_compute; reflexivity|].
  split; [vm_compute; reflexivity|].
  split; vm_compute; reflexivity.
Qed.

(** * Further properties of the program *)

(** ** Events *)

Lemma handle_event_exit (ev : Event) (g : GameManager) :
  handle_event ev g = None <-> is_exit ev = true.
Proof.
  destruct ev as [|[| |]|]; cbn; try (split; [discriminate | discriminate]);
    try (split; reflexivity).
  destruct (game_over (state g)); [split; discriminate|].
  destruct (negb (has_started (state g))); split; discriminate.
Qed.

Lemma handle_events_none_iff (evs : list Event) (space : bool) (g : GameManager) :
  handle_events evs space g = None <-> existsb is_exit evs = true.
Proof.
  revert g. induction evs as [|ev evs IH]; intro g; cbn [handle_events existsb].
  - split; discriminate.
  - destruct (handle_event ev g) as [g'|] eqn:Hev.
    + assert (Hne : is_exit ev = false).
      { destruct (is_exit ev) eqn:E; [|reflexivity].
        apply (proj2 (handle_event_exit ev g)) in E. congruence. }
      rewrite Hne. cbn [orb]. apply IH.
    + apply handle_event_exit in Hev. rewrite Hev. cbn. split; reflexivity.
Qed.

Lemma runningb_running (g : GameManager) : runningb g = true <-> running g.
Proof.
  unfold runningb, running.
  destruct (has_started (state g)), (game_over (state g)); cbn;
    split; intro H; try discriminate; try (split; reflexivity);
    try reflexivity; destruct H; discriminate.
Qed.

Lemma handle_event_no_exit (ev : Event) (g : GameManager) :
  is_exit ev = false ->
  handle_event ev g =
    Some (if is_space ev && negb (runningb g) then restart g else g).
Proof.
  unfold runningb.
  destruct ev as [|[| |]|]; cbn; try discriminate; try reflexivity.
  intros _.
  destruct (game_over (state g)), (has_started (state g)); reflexivity.
Qed.

Lemma handle_events_running (evs : list Event) (space : bool) (g : GameManager) :
  existsb is_exit evs = false ->
  runningb g = true ->
  handle_events evs space g = Some (set_player_in_air space g).
Proof.
  induction evs as [|ev evs IH]; cbn [handle_events existsb]; intros Hex Hrun.
  - reflexivity.
  - apply orb_false_iff in Hex as [Hev Hex].
    rewrite (handle_event_no_exit ev g Hev), Hrun, andb_false_r.
    apply IH; assumption.
Qed.

Lemma handle_events_some_eq (evs : list Event) (space : bool) (g : GameManager) :
  existsb is_exit evs = false ->
  handle_events evs space g =
    Some (set_player_in_air space
            (if existsb is_space evs && negb (runningb g) then restart g else g)).
Proof.
  revert g. induction evs as [|ev evs IH]; intros g Hex;
    cbn [handle_events existsb] in *.
  - reflexivity.
  - apply orb_false_iff in Hex as [Hev Hex].
    rewrite (handle_event_no_exit ev g Hev).
    destruct (runningb g) eqn:Hrun.
    + rewrite andb_false_r. rewrite (IH g Hex), Hrun, !andb_false_r. reflexivity.
    + rewrite andb_true_r. destruct (is_space ev); cbn [orb andb].
      * apply handle_events_running; [exact Hex | reflexivity].
      * rewrite (IH g Hex), Hrun, andb_true_r. reflexivity.
Qed.

(** X1. [handle_events] leaves the program exactly when the queue holds a
    QUIT event or a key-down of ESCAPE, whatever else the queue holds and
    whatever the state is. *)
Theorem X1_handle_events_exit (evs : list Event) (space : bool) (g : GameManager) :
  handle_events evs space g = None <-> existsb is_exit evs = true.
Proof. apply handle_events_none_iff. Qed.

(** X2. When the queue holds no exit event, [handle_events] does this and
    nothing else: if the game is not running and the queue holds a key-down
    of SPACE, the game is reset and started; then [in_air] takes the state
    of the space bar.  A key-down of SPACE while the game is running resets
    nothing. *)
Theorem X2_handle_events_effect (evs : list Event) (space : bool) (g : GameManager) :
  existsb is_exit evs = false ->
  handle_events evs space g =
    Some (set_player_in_air space
            (if existsb is_space evs && negb (runningb g) then restart g else g)).
Proof. apply handle_events_some_eq. Qed.

Lemma X2_handle_events_effect_witness :
  existsb is_exit [other_event; KEYDOWN K_SPACE; KEYDOWN K_other] = false /\
  handle_events [other_event; KEYDOWN K_SPACE; KEYDOWN K_other] true stopped =
    Some (set_player_in_air true (restart stopped)).
Proof.
  split; [reflexivity|].
  exact (X2_handle_events_effect
           [other_event; KEYDOWN K_SPACE; KEYDOWN K_other] true stopped eq_refl).
Defined.

(** ** Spawning within a tick *)

Lemma generate_obstacle_new (e : Env) (g : GameManager) :
  exists next,
    obstacles (generate_obstacle e g) = obstacles g ++ [next] /\
    state (generate_obstacle e g) = state g /\
    Obstacle.width next = OBSTACLE_WIDTH /\
    Obstacle.height next = OBSTACLE_HEIGHT /\
    Obstacle.is_air_obstacle next = rand_air e /\
    Obstacle.y next =
      (if rand_air e then AIR_HEIGHT else GROUND_HEIGHT - OBSTACLE_HEIGHT)%Z /\
    Obstacle.speed next = game_speed (state g) /\
    inject_Z SCREEN_WIDTH <= Obstacle.x next.
Proof.
  unfold generate_obstacle; cbn [obstacles state].
  eexists; split; [reflexivity|].
  split; [reflexivity|].
  destruct (obstacles g) as [|o obs].
  - repeat split. apply Qle_refl.
  - repeat split. cbn [Obstacle.x Obstacle.set_x]. apply Q.le_max_l.
Qed.

Lemma update_running_spawn (e : Env) (g : GameManager) :
  running g ->
  (spawns e g = true ->
   exists next,
     obstacles (update e g) = update_obstacles (obstacles g) ++ [next] /\
     Obstacle.width next = OBSTACLE_WIDTH /\
     Obstacle.height next = OBSTACLE_HEIGHT /\
     Obstacle.is_air_obstacle next = rand_air e /\
     Obstacle.y next =
       (if rand_air e then AIR_HEIGHT else GROUND_HEIGHT - OBSTACLE_HEIGHT)%Z /\
     Obstacle.speed next = game_speed (state g) /\
     inject_Z SCREEN_WIDTH <= Obstacle.x next /\
     last_obstacle_time (state (update e g)) = current_time e) /\
  (spawns e g = false ->
   obstacles (update e g) = update_obstacles (obstacles g) /\
   last_obstacle_time (state (update e g)) = last_obstacle_time (state g)).
Proof.
  intro Hrun. rewrite (update_running e g Hrun). cbv zeta.
  cbn [obstacles state advance_difficulty last_obstacle_time].
  set (g2 := check_collisions (move_entities g)).
  assert (Hobs : obstacles g2 = update_obstacles (obstacles g)) by reflexivity.
  destruct (collide_loop_frame
              (Player.get_rect (Player.update (player g)))
              (update_obstacles (obstacles g)) (state g))
    as (_ & _ & Hsp & Hfr & Hlt).
  assert (Hsp2 : game_speed (state g2) = game_speed (state g)) by exact Hsp.
  assert (Htest : Qltb (obstacle_frequency (state g2))
                    (inject_Z (current_time e - last_obstacle_time (state g2)))
                  = spawns e g).
  { unfold spawns. change (obstacle_frequency (state g2))
      with (obstacle_frequency
              (collide_loop (Player.get_rect (Player.update (player g)))
                 (update_obstacles (obstacles g)) (state g))).
    change (last_obstacle_time (state g2))
      with (last_obstacle_time
              (collide_loop (Player.get_rect (Player.update (player g)))
                 (update_obstacles (obstacles g)) (state g))).
    now rewrite Hfr, Hlt. }
  unfold maybe_spawn. rewrite Htest.
  split; intro Hs; rewrite Hs.
  - destruct (generate_obstacle_new e g2)
      as (next & Heq & _ & Hw & Hh & Hk & Hy & Hv & Hx).
    exists next. cbn [obstacles state set_last_obstacle_time last_obstacle_time].
    rewrite Heq, Hobs, Hv, Hsp2. repeat split; assumption.
  - split; [exact Hobs | exact Hlt].
Qed.

(** X3. On a running tick an obstacle is spawned exactly when the clock
    exceeds the time of the last spawn by more than the spawn interval, both
    as they were before the tick.  Then exactly one obstacle is appended
    after the moved ones: of the drawn kind, at that kind's altitude, at or
    beyond the right edge, storing the game speed of before the tick; and the
    time of the last spawn becomes the clock value.  Otherwise nothing is
    appended and the time of the last spawn is kept. *)
Theorem X3_spawn_timing (e : Env) (g : GameManager) :
  running g ->
  (spawns e g = true ->
   exists next,
     obstacles (update e g) = update_obstacles (obstacles g) ++ [next] /\
     Obstacle.is_air_obstacle next = rand_air e /\
     Obstacle.y next =
       (if rand_air e then AIR_HEIGHT else GROUND_HEIGHT - OBSTACLE_HEIGHT)%Z /\
     Obstacle.speed next = game_speed (state g) /\
     inject_Z SCREEN_WIDTH <= Obstacle.x next /\
     last_obstacle_time (state (update e g)) = current_time e) /\
  (spawns e g = false ->
   obstacles (update e g) = update_obstacles (obstacles g) /\
   last_obstacle_time (state (update e g)) = last_obstacle_time (state g)).
Proof.
  intro Hrun. destruct (update_running_spawn e g Hrun) as [Hyes Hno].
  split; [|exact Hno].
  intro Hs. destruct (Hyes Hs) as (next & H1 & _ & _ & H2 & H3 & H4 & H5 & H6).
  exists next. repeat split; assumption.
Qed.

Lemma X3_spawn_timing_witness :
  running start /\
  spawns env_1001 start = true /\
  exists next,
    obstacles (update env_1001 start) = update_obstacles (obstacles start) ++ [next] /\
    Obstacle.is_air_obstacle next = rand_air env_1001 /\
    Obstacle.y next =
      (if rand_air env_1001 then AIR_HEIGHT
       else GROUND_HEIGHT - OBSTACLE_HEIGHT)%Z /\
    Obstacle.speed next = game_speed (state start) /\
    inject_Z SCREEN_WIDTH <= Obstacle.x next /\
    last_obstacle_time (state (update env_1001 start)) = current_time env_1001.
Proof.
  split; [split; reflexivity|]. split; [reflexivity|].
  exact (proj1 (X3_spawn_timing env_1001 start (conj eq_refl eq_refl)) eq_refl).
Defined.

(** ** Invariants of the reachable states *)

Lemma obstacle_ok_mono (gs gs' : Q) (o : Obstacle.t) :
  gs <= gs' -> obstacle_ok gs o -> obstacle_ok gs' o.
Proof.
  intros Hle (Hw & Hh & Hy & Hmin & Hmax & Hx).
  repeat split; try assumption. eapply Qle_trans; eassumption.
Qed.

Lemma obstacle_ok_update (gs : Q) (o : Obstacle.t) :
  obstacle_ok gs o ->
  Obstacle.is_off_screen (Obstacle.update o) = false ->
  obstacle_ok gs (Obstacle.update o).
Proof.
  intros (Hw & Hh & Hy & Hmin & Hmax & Hx) Hoff.
  apply Qltb_ge in Hoff.
  repeat split; assumption.
Qed.

Lemma obstacle_ok_update_obstacles (gs : Q) (obs : list Obstacle.t) :
  Forall (obstacle_ok gs) obs -> Forall (obstacle_ok gs) (update_obstacles obs).
Proof.
  induction 1 as [|o obs Ho Hobs IH]; cbn [update_obstacles]; [constructor|].
  destruct (Obstacle.is_off_screen (Obstacle.update o)) eqn:Hoff; [exact IH|].
  constructor; [apply obstacle_ok_update; assumption | exact IH].
Qed.

Lemma bg_inv_update (s : Q) (b : Background.t) :
  0 <= s -> bg_inv b -> bg_inv (Background.update s b).
Proof.
  intros Hs Hb. unfold bg_inv, Background.update.
  cbn [Background.min_x Background.bg_width].
  unfold Qgeb.
  destruct (Qle_bool (inject_Z (Background.bg_width b))
                     (Qabs (Background.min_x b - s))) eqn:Hwrap.
  - left. reflexivity.
  - right.
    assert (Hlt : Qabs (Background.min_x b - s) < inject_Z (Background.bg_width b)).
    { apply Qnot_le_lt. intro Hle. apply Qle_bool_iff in Hle. congruence. }
    apply Qabs_Qlt_condition in Hlt. destruct Hlt as [Hlo _].
    split; [exact Hlo|].
    destruct Hb as [H0 | [_ Hle]]; lra.
Qed.

Lemma game_inv_init (image_width : Z) : game_inv (GameManager_init image_width).
Proof.
  unfold game_inv, GameManager_init; cbn [state player obstacles background].
  split; [split; [apply Qle_refl | vm_compute; reflexivity]|].
  split; [apply Qle_refl|].
  split; [apply in_lanes_init|].
  split; [reflexivity|]. split; [reflexivity|].
  split; [cbn; discriminate|]. split; [constructor|].
  left. reflexivity.
Qed.

Lemma game_inv_restart (g : GameManager) : game_inv g -> game_inv (restart g).
Proof.
  intros (_ & _ & _ & _ & _ & _ & _ & Hbg).
  unfold game_inv, restart, reset_game; cbn [state player obstacles background].
  split; [split; [apply Qle_refl | vm_compute; reflexivity]|].
  split; [apply Qle_refl|].
  split; [apply in_lanes_init|].
  split; [reflexivity|]. split; [reflexivity|].
  split; [cbn; discriminate|]. split; [constructor|].
  exact Hbg.
Qed.

Lemma game_inv_set_player_in_air (a : bool) (g : GameManager) :
  game_inv g -> game_inv (set_player_in_air a g).
Proof. exact (fun H => H). Qed.

Lemma speed_increment_nonneg (s : GameState) :
  0 <= score s ->
  game_speed s <= game_speed s + GAME_SPEED_INCREMENT * (1 + score s / 500).
Proof.
  intro H. unfold GAME_SPEED_INCREMENT, Qdiv. change (/ 500) with (1 # 500). lra.
Qed.

Lemma game_inv_update (e : Env) (g : GameManager) :
  game_inv g -> game_inv (update e g).
Proof.
  intros Hinv.
  destruct (runningb g) eqn:Hb.
  2:{ rewrite update_not_running; [exact Hinv|].
      unfold runningb in Hb.
      destruct (has_started (state g)), (game_over (state g));
        cbn in Hb; try discriminate; auto. }
  apply runningb_running in Hb.
  destruct Hinv as ((Hsc & Hfr) & Hsp & Hpl & Hpx & Hpw & _ & Hobs & Hbg).
  destruct (update_running_state e g Hb) as (Hhs' & _ & Hsc' & Hsp' & Hfr').
  pose proof (speed_increment_nonneg (state g) Hsc) as Hmono.
  rewrite <- Hsp' in Hmono.
  unfold game_inv.
  split; [split|].
  - rewrite Hsc'. unfold SCORE_INCREMENT. lra.
  - rewrite Hfr'. reflexivity.
  - split; [eapply Qle_trans; eassumption|].
    rewrite (update_running_player e g Hb).
    split; [apply in_lanes_update, Hpl|].
    split; [exact Hpx|]. split; [exact Hpw|].
    split; [intros _; exact Hhs'|].
    split.
    + pose proof (obstacle_ok_update_obstacles _ _ Hobs) as Hmoved.
      destruct (update_running_spawn e g Hb) as [Hyes Hno].
      destruct (spawns e g).
      * destruct (Hyes eq_refl)
          as (next & -> & Hw & Hh & Hk & Hy & Hv & Hx & _).
        apply Forall_app. split.
        -- eapply Forall_impl; [|exact Hmoved].
           intro o. apply obstacle_ok_mono. exact Hmono.
        -- constructor; [|constructor].
           repeat split; try assumption.
           ++ rewrite Hy, Hk. reflexivity.
           ++ rewrite Hv. exact Hsp.
           ++ rewrite Hv. exact Hmono.
           ++ rewrite Hw. change (inject_Z SCREEN_WIDTH) with 800 in Hx.
              change (inject_Z OBSTACLE_WIDTH) with 30. lra.
      * destruct (Hno eq_refl) as [-> _].
        eapply Forall_impl; [|exact Hmoved].
        intro o. apply obstacle_ok_mono. exact Hmono.
    + assert (Hgs : 0 <= game_speed (state (update e g))).
      { change (inject_Z GAME_SPEED_INITIAL) with 5 in Hsp. lra. }
      rewrite (update_running e g Hb) in Hgs |- *.
      cbv zeta in Hgs |- *. cbn [background state] in Hgs |- *.
      destruct (maybe_spawn_frame e (check_collisions (move_entities g)))
        as (_ & _ & _ & _ & _ & _ & ->).
      apply bg_inv_update; [exact Hgs | exact Hbg].
Qed.

Lemma game_inv_handle_events (evs : list Event) (space : bool)
    (g g' : GameManager) :
  game_inv g -> handle_events evs space g = Some g' -> game_inv g'.
Proof.
  intros Hinv Hev.
  destruct (existsb is_exit evs) eqn:Hex.
  - apply (proj2 (handle_events_none_iff evs space g)) in Hex. congruence.
  - rewrite (handle_events_some_eq evs space g Hex) in Hev.
    injection Hev as <-.
    apply game_inv_set_player_in_air.
    destruct (existsb is_space evs && negb (runningb g));
      [apply game_inv_restart|]; exact Hinv.
Qed.

Lemma game_inv_frame (evs : list Event) (a : bool) (e : Env) (g g' : GameManager) :
  game_inv g -> frame evs a e g = Some g' -> game_inv g'.
Proof.
  unfold frame. intros Hinv Hf.
  destruct (handle_events evs a g) as [g1|] eqn:Hev; [|discriminate].
  injection Hf as <-.
  apply game_inv_update, (game_inv_handle_events evs a g g1 Hinv Hev).
Qed.

Lemma game_inv_frames (fs : list Frame) (g g' : GameManager) :
  game_inv g -> frames fs g = Some g' -> game_inv g'.
Proof.
  revert g. induction fs as [|[[evs a] e] fs IH]; intros g Hinv Hfs;
    cbn [frames] in Hfs.
  - injection Hfs as <-. exact Hinv.
  - destruct (frame evs a e g) as [g1|] eqn:Hf; [|discriminate].
    exact (IH g1 (game_inv_frame evs a e g g1 Hinv Hf) Hfs).
Qed.

(** X4. In every state the main loop reaches from a new [GameManager], each
    obstacle of the list has the constant box, stands at the altitude of its
    kind, stores a speed between [GAME_SPEED_INITIAL] and the current game
    speed, and is not off screen. *)
Theorem X4_obstacles_well_formed (image_width : Z) (fs : list Frame)
    (g : GameManager) :
  frames fs (GameManager_init image_width) = Some g ->
  Forall
    (fun o =>
       Obstacle.width o = OBSTACLE_WIDTH /\
       Obstacle.height o = OBSTACLE_HEIGHT /\
       Obstacle.y o =
         (if Obstacle.is_air_obstacle o then AIR_HEIGHT
          else GROUND_HEIGHT - OBSTACLE_HEIGHT)%Z /\
       inject_Z GAME_SPEED_INITIAL <= Obstacle.speed o /\
       Obstacle.speed o <= game_speed (state g) /\
       Obstacle.is_off_screen o = false)
    (obstacles g).
Proof.
  intro Hfs.
  destruct (game_inv_frames fs _ g (game_inv_init image_width) Hfs)
    as (_ & _ & _ & _ & _ & _ & Hobs & _).
  eapply Forall_impl; [|exact Hobs].
  intros o (Hw & Hh & Hy & Hmin & Hmax & Hx).
  repeat split; try assumption.
  apply Qltb_ge. exact Hx.
Qed.

(** X5. In every state the main loop reaches from a new [GameManager], the
    score is not negative, the game speed is at least [GAME_SPEED_INITIAL],
    the spawn interval lies between [OBSTACLE_FREQUENCY_MIN] and
    [OBSTACLE_FREQUENCY_INITIAL], the player stands at [x = 100] with [y]
    between the two lane altitudes, and [game_over] is never set in a game
    that has not started. *)
Theorem X5_reachable_state_bounds (image_width : Z) (fs : list Frame)
    (g : GameManager) :
  frames fs (GameManager_init image_width) = Some g ->
  0 <= score (state g) /\
  inject_Z GAME_SPEED_INITIAL <= game_speed (state g) /\
  inject_Z OBSTACLE_FREQUENCY_MIN <= obstacle_frequency (state g) /\
  obstacle_frequency (state g) <= inject_Z OBSTACLE_FREQUENCY_INITIAL /\
  Player.x (player g) = 100%Z /\
  (AIR_HEIGHT <= Player.y (player g) <= GROUND_HEIGHT - PLAYER_HEIGHT)%Z /\
  game_over (state g) && negb (has_started (state g)) = false.
Proof.
  intro Hfs.
  destruct (game_inv_frames fs _ g (game_inv_init image_width) Hfs)
    as ((Hsc & Hfr) & Hsp & (_ & Hy) & Hx & _ & Hfl & _ & _).
  split; [exact Hsc|]. split; [exact Hsp|].
  split; [rewrite Hfr; apply Q.le_max_l|].
  split.
  { rewrite Hfr.
    change (inject_Z OBSTACLE_FREQUENCY_MIN) with 500.
    change (inject_Z OBSTACLE_FREQUENCY_INITIAL) with 1000.
    destruct (Q.max_spec 500 (1000 - score (state g) * 2))
      as [[_ ->] | [_ ->]]; lra. }
  split; [exact Hx|]. split; [exact Hy|].
  destruct (game_over (state g)); [|reflexivity].
  rewrite (Hfl eq_refl). reflexivity.
Qed.

Lemma sample_frames_reach :
  frames sample_frames (GameManager_init 1600) = Some two_obstacles.
Proof. reflexivity. Qed.

Lemma X4_obstacles_well_formed_witness :
  frames sample_frames (GameManager_init 1600) = Some two_obstacles /\
  Forall
    (fun o =>
       Obstacle.width o = OBSTACLE_WIDTH /\
       Obstacle.height o = OBSTACLE_HEIGHT /\
       Obstacle.y o =
         (if Obstacle.is_air_obstacle o then AIR_HEIGHT
          else GROUND_HEIGHT - OBSTACLE_HEIGHT)%Z /\
       inject_Z GAME_SPEED_INITIAL <= Obstacle.speed o /\
       Obstacle.speed o <= game_speed (state two_obstacles) /\
       Obstacle.is_off_screen o = false)
    (obstacles two_obstacles).
Proof.
  split; [reflexivity|].
  exact (X4_obstacles_well_formed 1600 sample_frames two_obstacles eq_refl).
Defined.

Lemma X5_reachable_state_bounds_witness :
  frames sample_frames (GameManager_init 1600) = Some two_obstacles /\
  0 <= score (state two_obstacles) /\
  inject_Z GAME_SPEED_INITIAL <= game_speed (state two_obstacles) /\
  inject_Z OBSTACLE_FREQUENCY_MIN <= obstacle_frequency (state two_obstacles) /\
  obstacle_frequency (state two_obstacles) <= inject_Z OBSTACLE_FREQUENCY_INITIAL /\
  Player.x (player two_obstacles) = 100%Z /\
  (AIR_HEIGHT <= Player.y (player two_obstacles)
     <= GROUND_HEIGHT - PLAYER_HEIGHT)%Z /\
  game_over (state two_obstacles) && negb (has_started (state two_obstacles))
    = false.
Proof.
  split; [reflexivity|].
  exact (X5_reachable_state_bounds 1600 sample_frames two_obstacles eq_refl).
Defined.

(** ** Phase changes of a frame *)

Lemma frame_not_running (evs : list Event) (a : bool) (e : Env)
    (g g' : GameManager) :
  runningb g = false ->
  frame evs a e g = Some g' ->
  (existsb is_space evs = true /\
   g' = update e (set_player_in_air a (restart g))) \/
  (existsb is_space evs = false /\ g' = set_player_in_air a g).
Proof.
  intros Hnr Hf. unfold frame in Hf.
  destruct (existsb is_exit evs) eqn:Hex.
  - apply (proj2 (handle_events_none_iff evs a g)) in Hex.
    rewrite Hex in Hf. discriminate.
  - rewrite (handle_events_some_eq evs a g Hex), Hnr, andb_true_r in Hf.
    injection Hf as <-.
    destruct (existsb is_space evs).
    + left. split; reflexivity.
    + right. split; [reflexivity|].
      apply update_not_running. unfold runningb in Hnr.
      cbn [state set_player_in_air].
      destruct (has_started (state g)), (game_over (state g));
        cbn in Hnr; try discriminate; auto.
Qed.

(** X6. A frame that begins while the game is not running (not started, or
    game over) and does not exit ends in the RUNNING phase when the queue
    holds a key-down of SPACE: the game is reset and its first tick runs in
    that same frame, leaving the score at one increment.  When the queue
    holds none, the frame changes only [in_air] and the phase stays; so no
    frame goes from NOT_STARTED to GAME_OVER. *)
Theorem X6_frame_from_not_running (evs : list Event) (a : bool) (e : Env)
    (g g' : GameManager) :
  runningb g = false ->
  frame evs a e g = Some g' ->
  phase g' = (if existsb is_space evs then RUNNING else phase g) /\
  (if existsb is_space evs
   then score (state g') = 0 + SCORE_INCREMENT
   else g' = set_player_in_air a g).
Proof.
  intros Hnr Hf.
  destruct (frame_not_running evs a e g g' Hnr Hf) as [[-> ->] | [-> ->]].
  - assert (Hrun : running (set_player_in_air a (restart g)))
      by (split; reflexivity).
    destruct (update_running_state e _ Hrun) as (Hhs & Hgo & Hsc & _).
    cbv zeta in Hgo. cbn [obstacles set_player_in_air restart reset_game
                          update_obstacles existsb] in Hgo.
    split; [|exact Hsc].
    unfold phase. rewrite Hhs, Hgo. reflexivity.
  - split; reflexivity.
Qed.

Lemma X6_frame_from_not_running_witness :
  runningb stopped = false /\
  frame [KEYDOWN K_SPACE] true env_2002 stopped
    = Some (update env_2002 (set_player_in_air true (restart stopped))) /\
  phase (update env_2002 (set_player_in_air true (restart stopped))) = RUNNING /\
  score (state (update env_2002 (set_player_in_air true (restart stopped))))
    = 0 + SCORE_INCREMENT.
Proof.
  split; [reflexivity|]. split; [reflexivity|].
  exact (X6_frame_from_not_running [KEYDOWN K_SPACE] true env_2002 stopped
           _ eq_refl eq_refl).
Defined.

(** ** Collision geometry *)

Lemma to_int_window (q : Q) :
  (70 < to_int q < 130)%Z <-> 71 <= q /\ q < 130.
Proof.
  destruct q as [n d]. unfold to_int, Qle, Qlt; cbn [Qnum Qden].
  destruct (Z.lt_ge_cases n 0) as [Hneg | Hpos].
  - assert (Z.quot n (Z.pos d) <= 0)%Z.
    { apply Z.quot_le_upper_bound; lia. }
    lia.
  - rewrite Z.quot_div_nonneg by lia.
    pose proof (Z.div_mod n (Z.pos d) ltac:(lia)) as Hdm.
    pose proof (Z.mod_pos_bound n (Z.pos d) ltac:(lia)) as Hmod.
    split; intro H; nia.
Qed.

Lemma collides_iff (p : Player.t) (o : Obstacle.t) :
  in_lanes p ->
  Player.x p = 100%Z ->
  Player.width p = PLAYER_WIDTH ->
  Obstacle.width o = OBSTACLE_WIDTH ->
  Obstacle.height o = OBSTACLE_HEIGHT ->
  Obstacle.y o =
    (if Obstacle.is_air_obstacle o then AIR_HEIGHT
     else GROUND_HEIGHT - OBSTACLE_HEIGHT)%Z ->
  collides p o = true <->
  (71 <= Obstacle.x o /\ Obstacle.x o < 130) /\
  (if Obstacle.is_air_obstacle o
   then (Player.y p < AIR_HEIGHT + OBSTACLE_HEIGHT)%Z
   else (GROUND_HEIGHT - OBSTACLE_HEIGHT - PLAYER_HEIGHT < Player.y p)%Z).
Proof.
  intros [Hh Hy] Hx Hw How Hoh Hoy.
  rewrite <- to_int_window.
  unfold collides, Rect.colliderect, Player.get_rect, Obstacle.get_rect.
  cbn [Rect.x Rect.y Rect.w Rect.h].
  rewrite Hh, Hx, Hw, How, Hoh, Hoy.
  unfold PLAYER_WIDTH, PLAYER_HEIGHT, OBSTACLE_WIDTH, OBSTACLE_HEIGHT,
    AIR_HEIGHT, GROUND_HEIGHT in *.
  cbn [Z.eqb orb].
  rewrite !andb_true_iff, !Z.ltb_lt.
  destruct (Obstacle.is_air_obstacle o); lia.
Qed.

(** X7. For a player and an obstacle as the game keeps them, the collision
    test succeeds exactly when the obstacle's [x] lies in the window from 71
    (inclusive) to 130 (exclusive) and the player's box reaches into the
    obstacle's lane: [y < 230] for an air obstacle, [y > 190] for a ground
    obstacle. *)
Theorem X7_collision_geometry (p : Player.t) (o : Obstacle.t) :
  in_lanes p ->
  Player.x p = 100%Z ->
  Player.width p = PLAYER_WIDTH ->
  Obstacle.width o = OBSTACLE_WIDTH ->
  Obstacle.height o = OBSTACLE_HEIGHT ->
  Obstacle.y o =
    (if Obstacle.is_air_obstacle o then AIR_HEIGHT
     else GROUND_HEIGHT - OBSTACLE_HEIGHT)%Z ->
  collides p o = true <->
  (71 <= Obstacle.x o /\ Obstacle.x o < 130) /\
  (if Obstacle.is_air_obstacle o
   then (Player.y p < 230)%Z
   else (190 < Player.y p)%Z).
Proof. exact (collides_iff p o). Qed.

Lemma X7_collision_geometry_witness :
  collides Player.init (Obstacle.set_x 125 first_obstacle) = true <->
  (71 <= Obstacle.x (Obstacle.set_x 125 first_obstacle) /\
   Obstacle.x (Obstacle.set_x 125 first_obstacle) < 130) /\
  (190 < Player.y Player.init)%Z.
Proof.
  exact (X7_collision_geometry Player.init (Obstacle.set_x 125 first_obstacle)
           in_lanes_init eq_refl eq_refl eq_refl eq_refl eq_refl).
Defined.

(** X8. A player standing at the ground baseline is not hit by any air
    obstacle, and a player standing at the air altitude is not hit by any
    ground obstacle, wherever the obstacle is. *)
Theorem X8_settled_player_safe (p : Player.t) (o : Obstacle.t) :
  in_lanes p ->
  Player.x p = 100%Z ->
  Player.width p = PLAYER_WIDTH ->
  Obstacle.width o = OBSTACLE_WIDTH ->
  Obstacle.height o = OBSTACLE_HEIGHT ->
  Obstacle.y o =
    (if Obstacle.is_air_obstacle o then AIR_HEIGHT
     else GROUND_HEIGHT - OBSTACLE_HEIGHT)%Z ->
  Player.y p =
    (if Obstacle.is_air_obstacle o then GROUND_HEIGHT - PLAYER_HEIGHT
     else AIR_HEIGHT)%Z ->
  collides p o = false.
Proof.
  intros Hp Hx Hw How Hoh Hoy Hy.
  destruct (collides p o) eqn:Hc; [|reflexivity].
  apply (collides_iff p o Hp Hx Hw How Hoh Hoy) in Hc.
  destruct Hc as [_ Hc]. rewrite Hy in Hc.
  unfold PLAYER_HEIGHT, OBSTACLE_HEIGHT, AIR_HEIGHT, GROUND_HEIGHT in Hc.
  destruct (Obstacle.is_air_obstacle o); lia.
Qed.

Lemma X8_settled_player_safe_witness :
  collides Player.init (Obstacle.set_x 125 (Obstacle.init 5 true)) = false.
Proof.
  exact (X8_settled_player_safe Player.init
           (Obstacle.set_x 125 (Obstacle.init 5 true))
           in_lanes_init eq_refl eq_refl eq_refl eq_refl eq_refl eq_refl).
Defined.

(** ** Lane changes of the player *)

Lemma Player_update_distance (b : bool) (p : Player.t) :
  Player.height p = PLAYER_HEIGHT ->
  let t := (if b then AIR_HEIGHT else GROUND_HEIGHT - PLAYER_HEIGHT)%Z in
  Z.abs (Player.y (Player.update (Player.set_in_air b p)) - t) =
    Z.max 0 (Z.abs (Player.y p - t) - TRANSITION_SPEED).
Proof.
  intros Hh t. unfold Player.update, Player.set_in_air.
  cbn [Player.y Player.in_air Player.height]. rewrite Hh. fold t.
  unfold TRANSITION_SPEED.
  destruct (Z.ltb_spec (Player.y p) t); [lia|].
  destruct (Z.ltb_spec t (Player.y p)); lia.
Qed.

Lemma Player_steps_distance (b : bool) (n : nat) (p : Player.t) :
  Player.height p = PLAYER_HEIGHT ->
  let t := (if b then AIR_HEIGHT else GROUND_HEIGHT - PLAYER_HEIGHT)%Z in
  Z.abs (Player.y (Player.steps (repeat b n) p) - t) =
    Z.max 0 (Z.abs (Player.y p - t) - Z.of_nat n * TRANSITION_SPEED).
Proof.
  intros Hh t. revert p Hh.
  induction n as [|n IH]; intros p Hh.
  - cbn [repeat Player.steps fold_left]. lia.
  - cbn [repeat Player.steps fold_left].
    change (fold_left (fun q b0 => Player.update (Player.set_in_air b0 q))
              (repeat b n) (Player.update (Player.set_in_air b p)))
      with (Player.steps (repeat b n) (Player.update (Player.set_in_air b p))).
    rewrite IH by exact Hh.
    pose proof (Player_update_distance b p Hh) as Hd. cbv zeta in Hd.
    fold t in Hd. rewrite Hd. unfold TRANSITION_SPEED. lia.
Qed.

(** X9. While the control signal keeps one value, the distance of [y] to
    that signal's lane altitude shrinks by [TRANSITION_SPEED] per update
    until it is zero; from any position between the lanes the player is at
    the altitude after 8 updates and stays there. *)
Theorem X9_lane_change_duration (b : bool) (n : nat) (p : Player.t) :
  in_lanes p ->
  let t := (if b then AIR_HEIGHT else GROUND_HEIGHT - PLAYER_HEIGHT)%Z in
  Z.abs (Player.y (Player.steps (repeat b n) p) - t) =
    Z.max 0 (Z.abs (Player.y p - t) - Z.of_nat n * TRANSITION_SPEED) /\
  ((8 <= n)%nat -> Player.y (Player.steps (repeat b n) p) = t).
Proof.
  intros [Hh Hy] t.
  pose proof (Player_steps_distance b n p Hh) as Hd. cbv zeta in Hd. fold t in Hd.
  split; [exact Hd|].
  intro Hn. unfold t, TRANSITION_SPEED, AIR_HEIGHT, GROUND_HEIGHT, PLAYER_HEIGHT in *.
  destruct b; lia.
Qed.

Lemma X9_lane_change_duration_witness :
  Z.abs (Player.y (Player.steps (repeat true 7) Player.init) - AIR_HEIGHT) =
    Z.max 0 (Z.abs (Player.y Player.init - AIR_HEIGHT) - 7 * TRANSITION_SPEED) /\
  ((8 <= 7)%nat ->
   Player.y (Player.steps (repeat true 7) Player.init) = AIR_HEIGHT).
Proof.
  exact (X9_lane_change_duration true 7 Player.init in_lanes_init).
Defined.

(** ** Score over a run *)

Lemma inject_Z_of_nat_succ (n : nat) :
  inject_Z (Z.of_nat (S n)) == inject_Z (Z.of_nat n) + 1.
Proof.
  rewrite Nat2Z.inj_succ. unfold Z.succ. rewrite inject_Z_plus. reflexivity.
Qed.

Lemma tick_running_cases (a : bool) (e : Env) (g : GameManager) :
  (runningb g = true /\
   score (state (tick a e g)) = score (state g) + SCORE_INCREMENT /\
   game_speed (state (tick a e g)) =
     game_speed (state g) + GAME_SPEED_INCREMENT * (1 + score (state g) / 500)) \/
  (runningb g = false /\ state (tick a e g) = state g).
Proof.
  destruct (tick_state_cases a e g) as [(Hrun & -> & Hrun') | (Hnot & ->)].
  - left. split; [apply runningb_running, Hrun|].
    destruct (update_running_state e _ Hrun') as (_ & _ & Hsc & Hsp & _).
    split; assumption.
  - right. split; [|reflexivity].
    destruct (runningb g) eqn:Hb; [|reflexivity].
    apply runningb_running in Hb. contradiction.
Qed.

Lemma run_cons (i : bool * Env) (inputs : list (bool * Env)) (g : GameManager) :
  run (i :: inputs) g = run inputs (tick (fst i) (snd i) g).
Proof. reflexivity. Qed.

(** The score of the exact reading after a run; it serves the statements
    about order below, which rounding does not change. *)
Lemma run_score (inputs : list (bool * Env)) (g : GameManager) :
  score (state (run inputs g)) ==
    score (state g) + inject_Z (Z.of_nat (running_ticks inputs g)) * SCORE_INCREMENT.
Proof.
  revert g. induction inputs as [|i inputs IH]; intro g.
  - cbn [run fold_left running_ticks Z.of_nat]. change (inject_Z 0) with 0. ring.
  - rewrite run_cons, IH. cbn [running_ticks].
    destruct (tick_running_cases (fst i) (snd i) g) as [(Hb & Hsc & _) | (Hb & Hst)];
      rewrite Hb.
    + rewrite Hsc. change (1 + ?n)%nat with (S n).
      rewrite inject_Z_of_nat_succ. ring.
    + rewrite Hst. cbn [Nat.add]. reflexivity.
Qed.

(** X14. In every state the main loop reaches from a new [GameManager], the
    spawn test of a tick fails while the clock is within 500 ms of the last
    spawn, and succeeds whenever the clock is more than 1000 ms past it. *)
Theorem X14_spawn_cadence (image_width : Z) (fs : list Frame)
    (g : GameManager) (e : Env) :
  frames fs (GameManager_init image_width) = Some g ->
  ((current_time e - last_obstacle_time (state g) <= 500)%Z ->
   spawns e g = false) /\
  ((1000 < current_time e - last_obstacle_time (state g))%Z ->
   spawns e g = true).
Proof.
  intro Hfs.
  destruct (game_inv_frames fs _ g (game_inv_init image_width) Hfs)
    as ((Hsc & Hfr) & _).
  unfold spawns.
  set (d := (current_time e - last_obstacle_time (state g))%Z).
  change (inject_Z OBSTACLE_FREQUENCY_MIN) with 500 in Hfr.
  change (inject_Z OBSTACLE_FREQUENCY_INITIAL) with 1000 in Hfr.
  split; intro Hd.
  - apply Qltb_ge. rewrite Hfr.
    assert (inject_Z d <= 500) by (change 500 with (inject_Z 500);
                                   rewrite <- Zle_Qle; exact Hd).
    eapply Qle_trans; [eassumption | apply Q.le_max_l].
  - apply Qltb_lt. rewrite Hfr.
    assert (1000 < inject_Z d) by (change 1000 with (inject_Z 1000);
                                   rewrite <- Zlt_Qlt; exact Hd).
    destruct (Q.max_spec 500 (1000 - score (state g) * 2))
      as [[_ ->] | [_ ->]]; lra.
Qed.

Lemma X14_spawn_cadence_witness :
  frames sample_frames (GameManager_init 1600) = Some two_obstacles /\
  ((current_time env_2003 - last_obstacle_time (state two_obstacles) <= 500)%Z ->
   spawns env_2003 two_obstacles = false) /\
  ((1000 < current_time env_2003 - last_obstacle_time (state two_obstacles))%Z ->
   spawns env_2003 two_obstacles = true).
Proof.
  split; [reflexivity|].
  exact (X14_spawn_cadence 1600 sample_frames two_obstacles env_2003 eq_refl).
Defined.

(** ** The scrolling background *)

Lemma update_bg_width (e : Env) (g : GameManager) :
  Background.bg_width (background (update e g)) = Background.bg_width (background g).
Proof.
  destruct (runningb g) eqn:Hb.
  - apply runningb_running in Hb. rewrite (update_running e g Hb).
    cbv zeta. cbn [background Background.update Background.bg_width].
    now destruct (maybe_spawn_frame e (check_collisions (move_entities g)))
      as (_ & _ & _ & _ & _ & _ & ->).
  - rewrite update_not_running; [reflexivity|].
    unfold runningb in Hb.
    destruct (has_started (state g)), (game_over (state g));
      cbn in Hb; try discriminate; auto.
Qed.

Lemma frames_bg_width (fs : list Frame) (g g' : GameManager) :
  frames fs g = Some g' ->
  Background.bg_width (background g') = Background.bg_width (background g).
Proof.
  revert g. induction fs as [|[[evs a] e] fs IH]; intros g Hfs; cbn [frames] in Hfs.
  - now injection Hfs as <-.
  - unfold frame in Hfs.
    destruct (existsb is_exit evs) eqn:Hex.
    + apply (proj2 (handle_events_none_iff evs a g)) in Hex.
      rewrite Hex in Hfs. discriminate.
    + rewrite (handle_events_some_eq evs a g Hex) in Hfs.
      rewrite (IH _ Hfs), update_bg_width.
      destruct (existsb is_space evs && negb (runningb g)); reflexivity.
Qed.

(** X15. In every state the main loop reaches from a new [GameManager], the
    background keeps the width of its image and its scroll offset is never
    positive; when that width is positive the offset is less than one image
    width to the left. *)
Theorem X15_background_offset (image_width : Z) (fs : list Frame)
    (g : GameManager) :
  frames fs (GameManager_init image_width) = Some g ->
  Background.bg_width (background g) = image_width /\
  Background.min_x (background g) <= 0 /\
  ((0 < image_width)%Z ->
   - inject_Z image_width < Background.min_x (background g)).
Proof.
  intro Hfs.
  pose proof (frames_bg_width fs _ g Hfs) as Hw. cbn in Hw.
  destruct (game_inv_frames fs _ g (game_inv_init image_width) Hfs)
    as (_ & _ & _ & _ & _ & _ & _ & Hbg).
  unfold bg_inv in Hbg. rewrite Hw in Hbg.
  split; [exact Hw|].
  split.
  - destruct Hbg as [H0 | [_ Hle]]; [rewrite H0; apply Qle_refl | exact Hle].
  - intro Hpos.
    assert (0 < inject_Z image_width)
      by (change 0 with (inject_Z 0); rewrite <- Zlt_Qlt; exact Hpos).
    destruct Hbg as [H0 | [Hlo _]]; [rewrite H0; lra | exact Hlo].
Qed.

Lemma X15_background_offset_witness :
  frames sample_frames (GameManager_init 1600) = Some two_obstacles /\
  Background.bg_width (background two_obstacles) = 1600%Z /\
  Background.min_x (background two_obstacles) <= 0 /\
  ((0 < 1600)%Z -> - inject_Z 1600 < Background.min_x (background two_obstacles)).
Proof.
  split; [reflexivity|].
  exact (X15_background_offset 1600 sample_frames two_obstacles eq_refl).
Defined.




(** ** What is drawn over the scene *)

(** X17. In every state the main loop reaches from a new [GameManager],
    [draw] renders exactly the message of the phase: the start message
    before the game has started, the game-over message when it is over, and
    no message while it runs; never both. *)
Theorem X17_overlay_message (image_width : Z) (fs : list Frame)
    (g : GameManager) :
  frames fs (GameManager_init image_width) = Some g ->
  snd (draw_overlay g) =
    match phase g with
    | NOT_STARTED => ["Press SPACE to start"%string]
    | RUNNING => []
    | GAME_OVER => ["Game Over! Press SPACE to restart"%string]
    end.
Proof.
  intro Hfs.
  destruct (game_inv_frames fs _ g (game_inv_init image_width) Hfs)
    as (_ & _ & _ & _ & _ & Hfl & _ & _).
  unfold draw_overlay, phase. cbn [snd].
  destruct (game_over (state g)).
  - rewrite (Hfl eq_refl). reflexivity.
  - destruct (has_started (state g)); reflexivity.
Qed.

Lemma X17_overlay_message_witness :
  frames sample_frames (GameManager_init 1600) = Some two_obstacles /\
  snd (draw_overlay two_obstacles) = [].
Proof.
  split; [reflexivity|].
  exact (X17_overlay_message 1600 sample_frames two_obstacles eq_refl).
Defined.

Lemma to_int_floor (q : Q) : 0 <= q -> to_int q = Qfloor q.
Proof.
  destruct q as [n d]. unfold Qle, to_int, Qfloor; cbn [Qnum Qden].
  intro H. apply Z.quot_div_nonneg; lia.
Qed.

(** X18. In a run that begins with the reset path, the integer shown in the
    score text is never negative and never decreases from one tick to a
    later one. *)
Theorem X18_displayed_score_monotone (g0 : GameManager)
    (before after : list (bool * Env)) :
  let g := run before (restart g0) in
  let g' := run after g in
  (0 <= fst (draw_overlay g) <= fst (draw_overlay g'))%Z.
Proof.
  intros g g'. unfold draw_overlay. cbn [fst].
  assert (Hg : difficulty_inv (state g))
    by apply difficulty_inv_run, difficulty_inv_restart.
  destruct Hg as [Hsc _].
  pose proof (run_score after g) as Hsc'. fold g' in Hsc'.
  assert (Hk : 0 <= inject_Z (Z.of_nat (running_ticks after g)))
    by (change 0 with (inject_Z 0); rewrite <- Zle_Qle; lia).
  assert (Hle : score (state g) <= score (state g')).
  { rewrite Hsc'. unfold SCORE_INCREMENT.
    assert (0 <= inject_Z (Z.of_nat (running_ticks after g)) * (5 # 100))
      by (apply Qmult_le_0_compat; [exact Hk | lra]).
    lra. }
  rewrite (to_int_floor _ Hsc).
  rewrite (to_int_floor (score (state g')) (Qle_trans _ _ _ Hsc Hle)).
  split.
  - change 0%Z with (Qfloor 0). apply Qfloor_resp_le. exact Hsc.
  - apply Qfloor_resp_le. exact Hle.
Qed.
